(** * BIO span decoder and sensitivity filter of [src/predict.py]

    A shallow embedding of [bio_to_spans] and of the filtering loop of
    [main], followed by the properties of the decoder specification.
    The helper functions and two template generators of
    [data/generate_data.py] are embedded after them, with their own
    properties at the end.

    Modelling choices.
    - Character offsets and label ids are Python ints: [Z].
    - Confidences are the finite floats that [softmax(...)[i].item()]
      yields; they are only ever compared ([<], [min]), so they are
      modelled by their exact rational value in [Q] (every finite float
      is a rational, and float comparison is comparison of values).
    - [torch.softmax] is not computable on [Q]; it is a parameter
      [softmax] of the development.
    - [labels.py] ([ID2LABEL], [label_is_pii]) is not part of the
      sources: both are parameters; [ID2LABEL] is a dict, a [gmap].
    - Python exceptions are values of an error monad [result]. *)

From Stdlib Require Import ZArith QArith String Ascii List Lia DecimalString.
From stdpp Require Import base option list gmap strings.

Local Open Scope Z_scope.

(** ** Python primitives *)

Module Py.

Inductive exn : Type := ValueError | IndexError.

Inductive result (A : Type) : Type :=
| Ok (a : A)
| Raise (e : exn).

Arguments Ok {A} a.
Arguments Raise {A} e.

Definition bind {A B : Type} (m : result A) (k : A -> result B) : result B :=
  match m with
  | Ok a => k a
  | Raise e => Raise e
  end.

Definition is_ok {A : Type} (m : result A) : bool :=
  match m with Ok _ => true | Raise _ => false end.

(** [label.split("-", 1)]: the pieces around the first dash, or the
    whole string alone when it has no dash. *)
Fixpoint split_dash (s : string) : string * option string :=
  match s with
  | EmptyString => (EmptyString, None)
  | String c rest =>
      if Ascii.eqb c "-"%char then (EmptyString, Some rest)
      else let '(p, r) := split_dash rest in (String c p, r)
  end.

(** [a, b = s.split("-", 1)]: unpacking a one-element list raises
    [ValueError]. *)
Definition unpack_split (s : string) : result (string * string) :=
  match split_dash s with
  | (p, Some r) => Ok (p, r)
  | (_, None) => Raise ValueError
  end.

(** [xs[i]] for an index produced by [enumerate] (never negative). *)
Definition getitem_nat {A : Type} (xs : list A) (i : nat) : result A :=
  match xs !! i with
  | Some x => Ok x
  | None => Raise IndexError
  end.

(** [xs[i]] for an arbitrary int: negative indices count from the end. *)
Definition getitem {A : Type} (xs : list A) (i : Z) : result A :=
  let n := Z.of_nat (length xs) in
  if (0 <=? i) && (i <? n) then getitem_nat xs (Z.to_nat i)
  else if (- n <=? i) && (i <? 0) then getitem_nat xs (Z.to_nat (n + i))
  else Raise IndexError.

(** [a < b] on confidences. *)
Definition lt (a b : Q) : bool :=
  match (a ?= b)%Q with Lt => true | _ => false end.

(** The builtin [min(a, b)]: the first argument unless the second is
    strictly smaller. *)
Definition min (a b : Q) : Q := if lt b a then b else a.

End Py.

Import Py.

(** [result] is a monad; stdpp's [x ← m; k] notation sequences
    statements that may raise. *)
#[global] Instance result_bind : MBind result := fun A B k m => Py.bind m k.
#[global] Instance result_ret : MRet result := @Py.Ok.

(** ** The decoder: [bio_to_spans] *)

(** An emitted tuple [(start, end, label, confidence)]. *)
Definition span : Type := Z * Z * string * Q.

Definition span_start (sp : span) : Z := sp.1.1.1.
Definition span_end (sp : span) : Z := sp.1.1.2.
Definition span_label (sp : span) : string := sp.1.2.
Definition span_confidence (sp : span) : Q := sp.2.

(** The local variables of [bio_to_spans].  [current_start] and
    [current_end] are [None] in the source until the first span opens;
    they are read only under [current_label is not None], so their
    value before that point is immaterial (lemma [run_init_irrelevant]
    below) and they are kept as plain ints. *)
Record locals : Type := Locals {
  spans : list span;
  current_label : option string;
  current_start : Z;
  current_end : Z;
  current_confidence : Q
}.

(** Lines 20-24. *)
Definition init : locals :=
  {| spans := []; current_label := None;
     current_start := 0; current_end := 0; current_confidence := 1%Q |}.

(** [spans.append((current_start, current_end, current_label,
    current_confidence))] guarded by [current_label is not None]. *)
Definition append_open (st : locals) : list span :=
  match current_label st with
  | Some lab =>
      spans st ++ [(current_start st, current_end st, lab, current_confidence st)]
  | None => spans st
  end.

(** Lines 48-51 and 59-62: open a fresh span at this token. *)
Definition open_span (ent_type : string) (start end_ : Z) (confidence : Q)
    (sps : list span) : locals :=
  {| spans := sps; current_label := Some ent_type;
     current_start := start; current_end := end_;
     current_confidence := confidence |}.

(** [current_label == ent_type]. *)
Definition label_matches (cur : option string) (ent_type : string) : bool :=
  match cur with
  | Some l => String.eqb l ent_type
  | None => false
  end.

(** Lines 38-62: the effect of one non-marker token with label string
    [label]. *)
Definition transition (label : string) (start end_ : Z) (confidence : Q)
    (st : locals) : result locals :=
  if String.eqb label "O" then
    match current_label st with
    | Some _ =>
        Ok {| spans := append_open st; current_label := None;
              current_start := current_start st;
              current_end := current_end st;
              current_confidence := current_confidence st |}
    | None => Ok st
    end
  else
    '(prefix, ent_type) ← unpack_split label;
    if String.eqb prefix "B" then
      Ok (open_span ent_type start end_ confidence (append_open st))
    else if String.eqb prefix "I" then
      if label_matches (current_label st) ent_type then
        Ok {| spans := spans st; current_label := current_label st;
              current_start := current_start st;
              current_end := end_;
              current_confidence := Py.min (current_confidence st) confidence |}
      else
        Ok (open_span ent_type start end_ confidence (append_open st))
    else Ok st.

(** A label string the decoder can parse: [O], [B-X] or [I-X]. *)
Definition parseable (label : string) : Prop :=
  label = "O"%string \/
  exists X, label = ("B-" +:+ X)%string \/ label = ("I-" +:+ X)%string.

Section Decoder.

(** The label registry of [labels.py] and [torch.softmax(row, dim=-1)]. *)
Variable ID2LABEL : gmap Z string.
Variable softmax : list Q -> list Q.

(** [ID2LABEL.get(int(lid), "O")]. *)
Definition label_of (lid : Z) : string := default "O"%string (ID2LABEL !! lid).

(** Lines 32-36. *)
Definition confidence_at (logits : option (list (list Q))) (idx : nat) (lid : Z)
    : result Q :=
  match logits with
  | Some rows =>
      row ← getitem_nat rows idx;
      getitem (softmax row) lid
  | None => Ok 1%Q
  end.

(** Lines 27-28. *)
Definition is_marker (off : Z * Z) : bool := (off.1 =? 0) && (off.2 =? 0).

(** One iteration of the loop of line 26. *)
Definition step (logits : option (list (list Q))) (idx : nat)
    (tok : (Z * Z) * Z) (st : locals) : result locals :=
  let '((start, end_), lid) := tok in
  if is_marker (start, end_) then Ok st
  else
    let label := label_of lid in
    confidence ← confidence_at logits idx lid;
    transition label start end_ confidence st.

(** The loop over [enumerate(zip(offsets, label_ids))], from index [idx]. *)
Fixpoint run (logits : option (list (list Q))) (idx : nat)
    (toks : list ((Z * Z) * Z)) (st : locals) : result locals :=
  match toks with
  | [] => Ok st
  | tok :: rest =>
      st' ← step logits idx tok st;
      run logits (S idx) rest st'
  end.

(** [bio_to_spans(text, offsets, label_ids, logits, confidence_threshold)]. *)
Definition bio_to_spans (text : string) (offsets : list (Z * Z))
    (label_ids : list Z) (logits : option (list (list Q)))
    (confidence_threshold : Q) : result (list span) :=
  st ← run logits 0 (zip offsets label_ids) init;
  Ok (append_open st).

End Decoder.

(** ** The constituent tokens of a span (ghost trace)

    For the statement of the aggregation rule the decoder is run next
    to a ghost trace that records, for every span, the confidences of
    the tokens it was built from: the token that opened it and every
    matching [I] token that extended it.  The trace does not influence
    the decoder (lemma [run_traced_erase]). *)

(** Closed groups, in emission order, and the group of the open span. *)
Definition trace : Type := list (list Q) * list Q.

Definition empty_trace : trace := ([], []).

Definition close_group (cur : option string) (tr : trace) : list (list Q) :=
  match cur with
  | Some _ => tr.1 ++ [tr.2]
  | None => tr.1
  end.

(** The ghost counterpart of [transition]; [cur] is [current_label]
    before the token. *)
Definition trace_transition (label : string) (confidence : Q)
    (cur : option string) (tr : trace) : trace :=
  if String.eqb label "O" then (close_group cur tr, [])
  else
    match split_dash label with
    | (prefix, Some ent_type) =>
        if String.eqb prefix "B" then (close_group cur tr, [confidence])
        else if String.eqb prefix "I" then
          if label_matches cur ent_type then (tr.1, tr.2 ++ [confidence])
          else (close_group cur tr, [confidence])
        else tr
    | (_, None) => tr
    end.

Section Traced.

Variable ID2LABEL : gmap Z string.
Variable softmax : list Q -> list Q.

Definition step_traced (logits : option (list (list Q))) (idx : nat)
    (tok : (Z * Z) * Z) (stt : locals * trace) : result (locals * trace) :=
  let '(st, tr) := stt in
  st' ← step ID2LABEL softmax logits idx tok st;
  if is_marker tok.1 then Ok (st', tr)
  else
    confidence ← confidence_at softmax logits idx tok.2;
    Ok (st', trace_transition (label_of ID2LABEL tok.2) confidence
               (current_label st) tr).

Fixpoint run_traced (logits : option (list (list Q))) (idx : nat)
    (toks : list ((Z * Z) * Z)) (stt : locals * trace)
    : result (locals * trace) :=
  match toks with
  | [] => Ok stt
  | tok :: rest =>
      stt' ← step_traced logits idx tok stt;
      run_traced logits (S idx) rest stt'
  end.

(** The groups of the spans that [bio_to_spans] returns, in the same
    order: the closed ones and, at the flush, the open one. *)
Definition constituents (offsets : list (Z * Z)) (label_ids : list Z)
    (logits : option (list (list Q))) : result (list (list Q)) :=
  stt ← run_traced logits 0 (zip offsets label_ids) (init, empty_trace);
  Ok (close_group (current_label stt.1) stt.2).

End Traced.

(** [m] is a minimum of the list [cs]. *)
Definition is_minimum (m : Q) (cs : list Q) : Prop :=
  In m cs /\ forall c, In c cs -> (m <= c)%Q.

(** The ghost trace agrees with the decoder state: every emitted span
    reports the minimum of its group, and so does the open span. *)
Definition trace_agrees (st : locals) (tr : trace) : Prop :=
  Forall2 (fun sp cs => is_minimum (span_confidence sp) cs) (spans st) tr.1
  /\ (forall lab, current_label st = Some lab ->
        is_minimum (current_confidence st) tr.2).

(** A label string that opens or extends a span: [B-...] or [I-...]. *)
Definition contributes (label : string) : bool :=
  negb (String.eqb label "O") &&
  match split_dash label with
  | (prefix, Some _) => String.eqb prefix "B" || String.eqb prefix "I"
  | (_, None) => false
  end.

(** The confidences of the non-marker [B]/[I] tokens, in stream order. *)
Fixpoint entity_confidences (ID2LABEL : gmap Z string)
    (softmax : list Q -> list Q) (logits : option (list (list Q)))
    (idx : nat) (toks : list ((Z * Z) * Z)) : list Q :=
  match toks with
  | [] => []
  | (off, lid) :: rest =>
      (if is_marker off then []
       else match confidence_at softmax logits idx lid with
            | Ok c => if contributes (label_of ID2LABEL lid) then [c] else []
            | Raise _ => []
            end)
      ++ entity_confidences ID2LABEL softmax logits (S idx) rest
  end.

(** Two states with no open span and the same emitted spans. *)
Definition closed_alike (st1 st2 : locals) : Prop :=
  spans st1 = spans st2
  /\ current_label st1 = None /\ current_label st2 = None.

(** ** The sensitivity filter: the loop of [main], lines 113-125 *)

(** The dict [{"start": .., "end": .., "label": .., "pii": ..}]. *)
Record entity : Type := Entity {
  ent_start : Z;
  ent_end : Z;
  ent_label : string;
  ent_pii : bool
}.

Section Filter.

(** [label_is_pii] of [labels.py]. *)
Variable label_is_pii : string -> bool.

Definition to_entity (sp : span) : entity :=
  let '(s, e, lab, conf) := sp in
  {| ent_start := s; ent_end := e; ent_label := lab;
     ent_pii := label_is_pii lab |}.

(** One iteration of the loop of line 114. *)
Definition filter_step (confidence_threshold : Q) (ents : list entity)
    (sp : span) : list entity :=
  let '(s, e, lab, conf) := sp in
  if label_is_pii lab && Py.lt conf confidence_threshold then ents
  else ents ++ [ {| ent_start := s; ent_end := e; ent_label := lab;
                    ent_pii := label_is_pii lab |} ].

(** Lines 113-125. *)
Definition filter_spans (confidence_threshold : Q) (sps : list span)
    : list entity :=
  fold_left (filter_step confidence_threshold) sps [].

(** The keep rule of the filter contract. *)
Definition keeps (confidence_threshold : Q) (sp : span) : bool :=
  negb (label_is_pii (span_label sp))
  || Qle_bool confidence_threshold (span_confidence sp).

Variable ID2LABEL : gmap Z string.
Variable softmax : list Q -> list Q.

(** Lines 112-126 for one utterance: decode, then filter. *)
Definition predict_utterance (text : string) (offsets : list (Z * Z))
    (pred_ids : list Z) (logits : list (list Q)) (confidence_threshold : Q)
    : result (list entity) :=
  sps ← bio_to_spans ID2LABEL softmax text offsets pred_ids (Some logits)
          confidence_threshold;
  Ok (filter_spans confidence_threshold sps).

End Filter.

(** ** Order of offsets and of spans *)

(** The offsets of the non-marker tokens are non-empty ranges, each
    starting at or after [lo] and after the end of the previous one. *)
Fixpoint offsets_ordered (lo : Z) (offsets : list (Z * Z)) : Prop :=
  match offsets with
  | [] => True
  | off :: rest =>
      if is_marker off then offsets_ordered lo rest
      else lo <= off.1 /\ off.1 < off.2 /\ offsets_ordered off.2 rest
  end.

(** Every span is a non-empty range, and consecutive spans are strictly
    ordered by start and do not overlap. *)
Definition spans_ordered (sps : list span) : Prop :=
  (forall sp, In sp sps -> span_start sp < span_end sp) /\
  (forall (i : nat) sp sp', sps !! i = Some sp -> sps !! S i = Some sp' ->
     span_start sp < span_start sp' /\ span_end sp <= span_start sp').

(** The score array has what the loop reads: a row at every
    non-marker position, with an entry at the label id. *)
Definition logits_cover (softmax : list Q -> list Q)
    (logits : option (list (list Q))) (idx : nat)
    (toks : list ((Z * Z) * Z)) : Prop :=
  forall rows, logits = Some rows ->
  forall (k : nat) off lid, toks !! k = Some (off, lid) ->
    is_marker off = false ->
    exists row, rows !! (idx + k)%nat = Some row
      /\ - Z.of_nat (length (softmax row)) <= lid
           < Z.of_nat (length (softmax row)).

(** The loop invariant behind the order of the output: the emitted
    spans are ordered, they end before the open span starts (or before
    [lo] when none is open), and the open span is a non-empty range
    ending at or before [lo], the least start of a token to come. *)
Definition ordered_state (lo : Z) (st : locals) : Prop :=
  spans_ordered (spans st) /\
  match current_label st with
  | Some _ =>
      (forall sp, In sp (spans st) -> span_end sp <= current_start st)
      /\ current_start st < current_end st
      /\ current_end st <= lo
  | None => forall sp, In sp (spans st) -> span_end sp <= lo
  end.

(** ** Further notions about the decoder and the filter *)

(** Every label of the registry is [O] or has a dash. *)
Definition dashed_registry (ID2LABEL : gmap Z string) : Prop :=
  forall lid l, ID2LABEL !! lid = Some l ->
    l = "O"%string \/ (split_dash l).2 <> None.

(** A label string [B-...]. *)
Definition is_begin (label : string) : bool :=
  match split_dash label with
  | (prefix, Some _) => String.eqb prefix "B"
  | (_, None) => false
  end.

(** The number of non-marker tokens whose label string satisfies [f]. *)
Definition count_labels (f : string -> bool) (ID2LABEL : gmap Z string)
    (toks : list ((Z * Z) * Z)) : nat :=
  length (List.filter
            (fun tok => negb (is_marker tok.1) && f (label_of ID2LABEL tok.2))
            toks).

(** [tok] is a non-marker [B-X] or [I-X] token. *)
Definition entity_token (ID2LABEL : gmap Z string) (X : string)
    (tok : (Z * Z) * Z) : Prop :=
  is_marker tok.1 = false /\
  exists prefix, split_dash (label_of ID2LABEL tok.2) = (prefix, Some X)
    /\ (prefix = "B"%string \/ prefix = "I"%string).

(** The span [sp] runs from the start of one [B]/[I] token of its type
    to the end of the same or a later one. *)
Definition span_from_tokens (ID2LABEL : gmap Z string)
    (toks : list ((Z * Z) * Z)) (sp : span) : Prop :=
  exists (i j : nat) ti tj,
    (i <= j)%nat /\ toks !! i = Some ti /\ toks !! j = Some tj
    /\ entity_token ID2LABEL (span_label sp) ti
    /\ entity_token ID2LABEL (span_label sp) tj
    /\ ti.1.1 = span_start sp /\ tj.1.2 = span_end sp.

(** The tokens that are not structural markers. *)
Definition live_tokens (toks : list ((Z * Z) * Z)) : list ((Z * Z) * Z) :=
  List.filter (fun tok => negb (is_marker tok.1)) toks.

(** Spans as a chain: each a non-empty range starting at or after the
    end of the one before, the first at or after [lo]. *)
Fixpoint spans_chain (lo : Z) (sps : list span) : Prop :=
  match sps with
  | [] => True
  | sp :: rest =>
      lo <= span_start sp /\ span_start sp < span_end sp
      /\ spans_chain (span_end sp) rest
  end.

(** The same order on the entities that [main] writes out. *)
Definition entities_ordered (ents : list entity) : Prop :=
  (forall en, In en ents -> ent_start en < ent_end en) /\
  (forall (i j : nat) en en', (i < j)%nat ->
     ents !! i = Some en -> ents !! j = Some en' ->
     ent_end en <= ent_start en').

(** ** A sample registry

    A registry over the entity types of the specification, and
    probabilities given directly as score rows, used to evaluate the
    decoder on concrete inputs. *)

Module Sample.

(** Modelled from the spec: [ID2LABEL] of [labels.py], which is not
    among the sources.  Ids 0 to 8 carry BIO tags of entity types the
    specification names; ids 9 and 10 carry malformed strings, to
    evaluate the decoder on them. *)
Definition ID2LABEL : gmap Z string :=
  list_to_map
    [ (0, "O"); (1, "B-PERSON_NAME"); (2, "I-PERSON_NAME");
      (3, "B-CITY"); (4, "I-CITY"); (5, "B-EMAIL"); (6, "I-EMAIL");
      (7, "B-PHONE"); (8, "I-PHONE");
      (9, "CITY"); (10, "E-CITY") ]%string.

(** Modelled from the spec: [label_is_pii] of [labels.py]; name,
    phone, email and credit card are sensitive, city, location and
    date are not. *)
Definition label_is_pii (lab : string) : bool :=
  bool_decide (lab ∈ ["PERSON_NAME"; "PHONE"; "EMAIL"; "CREDIT_CARD"]%string).

(** The well-formed part of the sample registry. *)
Definition BIO : gmap Z string :=
  list_to_map
    [ (0, "O"); (1, "B-PERSON_NAME"); (2, "I-PERSON_NAME");
      (3, "B-CITY"); (4, "I-CITY") ]%string.

(** Some utterance; the decoder never reads it. *)
Definition text : string := "call me at home"%string.

(** Rows that already hold probabilities. *)
Definition softmax (row : list Q) : list Q := row.

(** A row giving probability [p] to label [lid] (ids 0 to 10). *)
Definition row_for (lid : nat) (p : Q) : list Q :=
  <[lid := p]> (replicate 11 0%Q).

End Sample.

(** * The data generator: [data/generate_data.py]

    The generator draws from the module [random].  Its state is
    modelled by the two sequences of outcomes it will deliver, the
    integers behind [choice], [choices] and [randint] and the floats
    returned by [random()], with the number of draws made so far; the
    functions thread this state.  Strings are the ASCII strings the
    generator works with. *)

Module Str.

(** [str(n)]. *)
Definition of_int (n : Z) : string := NilZero.string_of_int (Z.to_int n).

(** The format [{n:02d}]: zero-padded to width two, the sign counting. *)
Definition format_02d (n : Z) : string :=
  if (0 <=? n) && (n <? 10) then ("0" +:+ of_int n)%string else of_int n.

Definition char_str (c : ascii) : string := String c EmptyString.

(** The characters of a string, as [for d in s] visits them. *)
Definition chars (s : string) : list ascii := list_ascii_of_string s.

(** [int(d)] for a one-character string. *)
Definition int_of_char (d : ascii) : result Z :=
  let n := nat_of_ascii d in
  if (48 <=? n)%nat && (n <=? 57)%nat then Ok (Z.of_nat (n - 48))
  else Raise ValueError.

(** [s[i:j]] and [s[i:]] for non-negative [i], [j]. *)
Definition slice (i j : nat) (s : string) : string := substring i (j - i) s.
Definition slice_from (i : nat) (s : string) : string :=
  substring i (String.length s - i) s.

(** [s[i]], a one-character string. *)
Definition getitem (s : string) (i : Z) : result string :=
  c ← Py.getitem (chars s) i; Ok (char_str c).

(** [sep.join(parts)]. *)
Definition join (sep : string) (parts : list string) : string :=
  String.concat sep parts.

(** [text.find(sub)]: the lowest index of an occurrence, or -1. *)
Definition find (text sub : string) : Z :=
  match String.index 0 sub text with
  | Some i => Z.of_nat i
  | None => -1
  end.

(** [s.replace(old, new)] for a one-character [old]. *)
Fixpoint replace_char (old : ascii) (new s : string) : string :=
  match s with
  | EmptyString => EmptyString
  | String c rest =>
      if Ascii.eqb c old then (new +:+ replace_char old new rest)%string
      else String c (replace_char old new rest)
  end.

(** [c.isspace()] on ASCII. *)
Definition is_space (c : ascii) : bool :=
  let n := nat_of_ascii c in
  ((9 <=? n) && (n <=? 13) || (28 <=? n) && (n <=? 32))%nat.

Fixpoint lstrip (s : string) : string :=
  match s with
  | EmptyString => EmptyString
  | String c rest => if is_space c then lstrip rest else s
  end.

(** [s.rstrip()]: the string up to its last non-space character. *)
Fixpoint rstrip (s : string) : string :=
  match s with
  | EmptyString => EmptyString
  | String c rest =>
      match rstrip rest with
      | EmptyString => if is_space c then EmptyString else char_str c
      | r => String c r
      end
  end.

(** [s.strip()]. *)
Definition strip (s : string) : string := rstrip (lstrip s).

End Str.

Module Rand.

Record rng : Type := Rng {
  picks : nat -> nat;
  rolls : nat -> Q;
  n_picks : nat;
  n_rolls : nat
}.

(** A computation that draws from the generator and may raise. *)
Definition gen (A : Type) : Type := rng -> result (A * rng).

Definition ret {A : Type} (a : A) : gen A := fun g => Ok (a, g).

Definition bind {A B : Type} (m : gen A) (k : A -> gen B) : gen B :=
  fun g => match m g with
           | Ok (a, g') => k a g'
           | Raise e => Raise e
           end.

(** A computation that does not draw. *)
Definition lift {A : Type} (r : result A) : gen A :=
  fun g => match r with
           | Ok a => Ok (a, g)
           | Raise e => Raise e
           end.

Definition next_pick (g : rng) : rng :=
  {| picks := picks g; rolls := rolls g;
     n_picks := S (n_picks g); n_rolls := n_rolls g |}.

Definition next_roll (g : rng) : rng :=
  {| picks := picks g; rolls := rolls g;
     n_picks := n_picks g; n_rolls := S (n_rolls g) |}.

(** [random.random()]. *)
Definition random : gen Q := fun g => Ok (rolls g (n_rolls g), next_roll g).

(** [random.choice(xs)]; an empty sequence raises [IndexError]. *)
Definition choice {A : Type} (xs : list A) : gen A :=
  fun g =>
    match xs !! (picks g (n_picks g) mod length xs)%nat with
    | Some x => Ok (x, next_pick g)
    | None => Raise IndexError
    end.

(** [random.choices(xs, k=k)]. *)
Fixpoint choices {A : Type} (xs : list A) (k : nat) : gen (list A) :=
  match k with
  | O => ret []
  | S k' => bind (choice xs) (fun x => bind (choices xs k') (fun r => ret (x :: r)))
  end.

(** [random.randint(a, b)]; an empty range raises [ValueError]. *)
Definition randint (a b : Z) : gen Z :=
  fun g =>
    if b <? a then Raise ValueError
    else Ok (a + Z.of_nat (picks g (n_picks g)) mod (b - a + 1), next_pick g).

End Rand.

#[global] Instance gen_bind : MBind Rand.gen := fun A B k m => Rand.bind m k.
#[global] Instance gen_ret : MRet Rand.gen := @Rand.ret.

Module Gen.

Import Rand.

Definition FIRST_NAMES : list string :=
  [
    "rahul"; "priya"; "amit"; "neha"; "vijay"; "anita"; "rajesh";
    "sunita"; "deepak"; "pooja"; "sanjay"; "kavita"; "arun"; "meera";
    "suresh"; "divya"; "ramesh"; "anjali"; "rohit"; "sneha"; "manish";
    "rekha"; "nikhil"; "swati"; "arjun"; "pallavi"; "varun"; "ishita";
    "karan"; "nisha"; "tushar"; "ritu"; "dhruv"; "ananya"; "rohan";
    "shruti"; "aditya"; "preeti"; "akash"; "shweta"; "gaurav"; "komal";
    "vishal"; "archana"; "mohit"; "megha"; "harsh"; "jyoti"; "dev";
    "simran"; "aman"; "tanya"; "kunal"; "ritika"; "sahil"; "kriti";
    "vivek"; "manisha"; "ajay"; "sakshi"
  ]%string.

Definition LAST_NAMES : list string :=
  [
    "sharma"; "verma"; "gupta"; "singh"; "kumar"; "patel"; "reddy";
    "rao"; "iyer"; "nair"; "menon"; "pillai"; "joshi"; "desai"; "mehta";
    "shah"; "chopra"; "kapoor"; "malhotra"; "khanna"; "bhatia";
    "agarwal"; "saxena"; "mishra"; "pandey"; "dubey"; "tiwari"; "yadav";
    "chauhan"; "thakur"; "banerjee"; "mukherjee"; "chatterjee"; "ghosh";
    "das"; "sen"; "bose"; "roy"; "dutta"; "paul"; "sinha"; "prasad";
    "krishnan"; "subramanian"; "chaudhary"; "rathore"; "rajput";
    "solanki"; "parikh"; "trivedi"
  ]%string.

Definition CITIES : list string :=
  [
    "mumbai"; "delhi"; "bangalore"; "hyderabad"; "chennai"; "kolkata";
    "pune"; "ahmedabad"; "jaipur"; "lucknow"; "kanpur"; "nagpur";
    "indore"; "thane"; "bhopal"; "visakhapatnam"; "patna"; "vadodara";
    "ghaziabad"; "ludhiana"; "agra"; "nashik"; "faridabad"; "meerut";
    "rajkot"; "varanasi"; "srinagar"; "aurangabad"; "dhanbad";
    "amritsar"; "allahabad"; "ranchi"; "coimbatore"; "jabalpur";
    "gwalior"; "vijayawada"; "madurai"; "guwahati"; "chandigarh";
    "hubli"; "mysore"; "trichy"; "bareilly"; "aligarh"; "moradabad";
    "gurgaon"; "noida"; "kochi"; "trivandrum"; "mangalore"
  ]%string.

Definition LOCATIONS : list string :=
  [
    "koramangala"; "indiranagar"; "whitefield"; "electronic city";
    "hsr layout"; "marathahalli"; "jayanagar"; "btm layout"; "jp nagar";
    "banashankari"; "bandra"; "andheri"; "powai"; "worli"; "juhu"; "malad";
    "goregaon"; "thane west"; "navi mumbai"; "vashi"; "kharghar"; "panvel";
    "connaught place"; "karol bagh"; "dwarka"; "rohini"; "saket";
    "vasant kunj"; "greater kailash"; "lajpat nagar"; "hauz khas";
    "defence colony"; "banjara hills"; "jubilee hills"; "gachibowli";
    "madhapur"; "hitech city"; "salt lake"; "park street"; "new town";
    "rajarhat"; "howrah"; "mg road"; "brigade road"; "church street";
    "residency road"; "anna nagar"; "t nagar"; "adyar"; "velachery"; "omr";
    "ecr"
  ]%string.

Definition EMAIL_DOMAINS : list string :=
  [
    "gmail.com"; "yahoo.com"; "hotmail.com"; "outlook.com";
    "rediffmail.com"; "gmail.co"; "yahoo.co.in"; "hotmail.co.in";
    "rediffmail.co.in"; "protonmail.com"; "protonmail.in"; "icloud.com";
    "live.com"; "gmail.in"; "yahoo.in"; "outlook.in"
  ]%string.

(** The float literals [0.4], [0.6] and [0.7] of the source denote the
    doubles nearest to these decimals; these are their exact values
    ([0.5] is exactly one half).  The draws they are compared with are
    doubles too, so the comparisons of the model are those of the
    code. *)
Definition float_0_4 : Q := 3602879701896397 # 9007199254740992.
Definition float_0_6 : Q := 5404319552844595 # 9007199254740992.
Definition float_0_7 : Q := 3152519739159347 # 4503599627370496.

(** Lines 67-70. *)
Definition num_to_words (n : Z) : result string :=
  let words := ["zero"; "one"; "two"; "three"; "four"; "five"; "six"; "seven";
                "eight"; "nine"]%string in
  Py.getitem words n.

(** [num_to_words(int(d))]. *)
Definition spoken_word (d : ascii) : result string :=
  n ← Str.int_of_char d; num_to_words n.

(** [num_to_words(int(d)) for d in digits]. *)
Fixpoint spoken_words (ds : list ascii) : result (list string) :=
  match ds with
  | [] => Ok []
  | d :: rest =>
      w ← spoken_word d; ws ← spoken_words rest; Ok (w :: ws)
  end.

(** The loops of the "mixed" styles: a digit stays as it is when the
    draw is below [p] and is spelled out otherwise. *)
Fixpoint mixed_tokens (p : Q) (ds : list ascii) : gen (list string) :=
  match ds with
  | [] => ret []
  | d :: rest =>
      r ← random;
      tok ← (if Py.lt r p then ret (Str.char_str d) else lift (spoken_word d));
      toks ← mixed_tokens p rest;
      ret (tok :: toks)
  end.

(** The [while] loop of the "double" style, lines 107-118, on the
    characters from position [i] on. *)
Fixpoint double_tokens (ds : list ascii) : gen (list string) :=
  match ds with
  | [] => ret []
  | d :: rest =>
      let single :=
        r ← random;
        tok ← (if Py.lt r 0.5 then lift (spoken_word d)
               else ret (Str.char_str d));
        toks ← double_tokens rest;
        ret (tok :: toks) in
      match rest with
      | d' :: rest' =>
          if Ascii.eqb d d' then
            w ← lift (spoken_word d);
            toks ← double_tokens rest';
            ret (("double " +:+ w)%string :: toks)
          else single
      | [] => single
      end
  end.

(** Lines 72-119. *)
Definition format_phone_spoken (digits : string) : gen string :=
  style ← choice ["digits"; "words"; "mixed"; "grouped"; "double"]%string;
  if String.eqb style "digits" then
    r ← random;
    if Py.lt r 0.5 then ret digits
    else
      let mid := (String.length digits / 2)%nat in
      ret (Str.slice 0 mid digits +:+ " " +:+ Str.slice_from mid digits)%string
  else if String.eqb style "words" then
    ws ← lift (spoken_words (Str.chars digits));
    ret (Str.join " " ws)
  else if String.eqb style "mixed" then
    toks ← mixed_tokens 0.5 (Str.chars digits);
    ret (Str.join " " toks)
  else if String.eqb style "grouped" then
    if (String.length digits =? 10)%nat then
      ret (Str.slice 0 5 digits +:+ " " +:+ Str.slice_from 5 digits)%string
    else ret digits
  else
    toks ← double_tokens (Str.chars digits);
    ret (Str.join " " toks).

(** Lines 121-140. *)
Definition format_credit_card_spoken (digits : string) : gen string :=
  style ← choice ["words"; "mixed"; "grouped"; "digits"]%string;
  if String.eqb style "words" then
    ws ← lift (spoken_words (Str.chars digits));
    ret (Str.join " " ws)
  else if String.eqb style "mixed" then
    toks ← mixed_tokens float_0_4 (Str.chars digits);
    ret (Str.join " " toks)
  else if String.eqb style "grouped" then
    let groups := map (fun i => Str.slice i (i + 4) digits) [0; 4; 8; 12]%nat in
    ret (Str.join " " groups)
  else ret digits.

(** Lines 142-156. *)
Definition format_email_spoken (email : string) : gen string :=
  style ← choice ["spoken"; "mixed"; "normal"]%string;
  if String.eqb style "normal" then ret email
  else
    let result := email in
    r1 ← random;
    let result :=
      if Py.lt r1 float_0_7 then Str.replace_char "@" " at " result else result in
    r2 ← random;
    let result :=
      if Py.lt r2 float_0_6 then Str.replace_char "." " dot " result else result in
    ret (Str.strip result).

(** Lines 158-181. *)
Definition format_date_spoken (day month year : Z) : gen string :=
  let months := ["january"; "february"; "march"; "april"; "may"; "june";
                 "july"; "august"; "september"; "october"; "november";
                 "december"]%string in
  style ← choice ["dmy_slash"; "dmy_dash"; "spoken"; "spoken_th";
                  "d_of_month"]%string;
  if String.eqb style "dmy_slash" then
    ret (Str.format_02d day +:+ "/" +:+ Str.format_02d month +:+ "/"
         +:+ Str.of_int year)%string
  else if String.eqb style "dmy_dash" then
    ret (Str.format_02d day +:+ "-" +:+ Str.format_02d month +:+ "-"
         +:+ Str.of_int year)%string
  else if String.eqb style "spoken" then
    m ← lift (Py.getitem months (month - 1));
    ret (Str.of_int day +:+ " " +:+ m +:+ " " +:+ Str.of_int year)%string
  else if String.eqb style "spoken_th" then
    let suffix :=
      if (day =? 1) || (day =? 21) || (day =? 31) then "st"
      else if (day =? 2) || (day =? 22) then "nd"
      else if (day =? 3) || (day =? 23) then "rd"
      else "th" in
    m ← lift (Py.getitem months (month - 1));
    ret (Str.of_int day +:+ suffix +:+ " " +:+ m +:+ " " +:+ Str.of_int year)%string
  else
    m ← lift (Py.getitem months (month - 1));
    ret (Str.of_int day +:+ " of " +:+ m +:+ " " +:+ Str.of_int year)%string.

(** Lines 183-188. *)
Definition generate_phone : gen string :=
  first ← choice ["6"; "7"; "8"; "9"]%string;
  rest ← choices (Str.chars "0123456789") 9;
  ret (first +:+ string_of_list_ascii rest)%string.

(** Lines 190-192. *)
Definition generate_credit_card : gen string :=
  ds ← choices (Str.chars "0123456789") 16;
  ret (string_of_list_ascii ds).

(** Lines 194-206. *)
Definition generate_email (first_name last_name : string) : gen string :=
  domain ← choice EMAIL_DOMAINS;
  style ← choice ["dot"; "underscore"; "direct"; "initial"]%string;
  if String.eqb style "dot" then
    ret (first_name +:+ "." +:+ last_name +:+ "@" +:+ domain)%string
  else if String.eqb style "underscore" then
    ret (first_name +:+ "_" +:+ last_name +:+ "@" +:+ domain)%string
  else if String.eqb style "direct" then
    ret (first_name +:+ last_name +:+ "@" +:+ domain)%string
  else
    initial ← lift (Str.getitem first_name 0);
    ret (initial +:+ "." +:+ last_name +:+ "@" +:+ domain)%string.

(** Lines 208-213. *)
Definition generate_date : gen (Z * Z * Z) :=
  year ← randint 2023 2027;
  month ← randint 1 12;
  day ← randint 1 28;
  ret (day, month, year).

(** An entity [{"start": .., "end": .., "label": ..}] and a sample
    [{"text": .., "entities": ..}]. *)
Record gold : Type := Gold {
  gold_start : Z;
  gold_end : Z;
  gold_label : string
}.

Record sample : Type := Sample {
  sample_text : string;
  sample_entities : list gold
}.

(** The idiom of every template generator:
    [start = text.find(x); if start >= 0: entities.append({...})]. *)
Definition mark (text surface label : string) (entities : list gold)
    : list gold :=
  let start := Str.find text surface in
  if 0 <=? start then
    entities ++ [ {| gold_start := start;
                     gold_end := start + Z.of_nat (String.length surface);
                     gold_label := label |} ]
  else entities.

(** Lines 263-290. *)
Definition gen_name_phone : gen sample :=
  first ← choice FIRST_NAMES;
  last ← choice LAST_NAMES;
  let name := (first +:+ " " +:+ last)%string in
  phone_raw ← generate_phone;
  phone ← format_phone_spoken phone_raw;
  let templates :=
    [ "this is " +:+ name +:+ " my phone number is " +:+ phone
        +:+ " please call me tomorrow";
      "my name is " +:+ name +:+ " and my contact number is " +:+ phone;
      "i am " +:+ name +:+ " you can call me on " +:+ phone;
      "hello " +:+ name +:+ " here my mobile is " +:+ phone +:+ " call anytime";
      "this is " +:+ name +:+ " reach me at " +:+ phone +:+ " thanks" ]%string in
  text ← choice templates;
  let entities := [] in
  let entities := mark text name "PERSON_NAME" entities in
  let entities := mark text phone "PHONE" entities in
  ret {| sample_text := text; sample_entities := entities |}.

(** Lines 406-430. *)
Definition gen_location_city : gen sample :=
  location ← choice LOCATIONS;
  city ← choice CITIES;
  let templates :=
    [ "the office is near " +:+ location +:+ " in " +:+ city +:+ " today";
      "i live in " +:+ location +:+ " area of " +:+ city;
      "our branch is at " +:+ location +:+ " in " +:+ city;
      "meeting point is " +:+ location +:+ " in " +:+ city +:+ " tomorrow";
      "address is " +:+ location +:+ " " +:+ city +:+ " please note" ]%string in
  text ← choice templates;
  let entities := [] in
  let entities := mark text location "LOCATION" entities in
  let entities := mark text city "CITY" entities in
  ret {| sample_text := text; sample_entities := entities |}.

End Gen.

(** ** Reading a spoken number back

    What a token of a spoken number stands for: a spelled digit for
    that digit, ["double"] and a spelled digit for the digit twice,
    anything else for itself. *)

Definition is_digit (c : ascii) : bool :=
  let n := nat_of_ascii c in (48 <=? n)%nat && (n <=? 57)%nat.

Definition all_digits (s : string) : Prop :=
  Forall (fun c => is_digit c = true) (Str.chars s).

Definition digit_words : list (string * ascii) :=
  [ ("zero"%string, "0"%char); ("one"%string, "1"%char);
    ("two"%string, "2"%char); ("three"%string, "3"%char);
    ("four"%string, "4"%char); ("five"%string, "5"%char);
    ("six"%string, "6"%char); ("seven"%string, "7"%char);
    ("eight"%string, "8"%char); ("nine"%string, "9"%char) ].

Definition word_digit (w : string) : option ascii :=
  match List.find (fun p => String.eqb w p.1) digit_words with
  | Some p => Some p.2
  | None => None
  end.

Definition token_digits (tok : string) : string :=
  if String.prefix "double " tok then
    match word_digit (Str.slice_from 7 tok) with
    | Some d => String d (String d EmptyString)
    | None => tok
    end
  else
    match word_digit tok with
    | Some d => String d EmptyString
    | None => tok
    end.

Definition read_back (toks : list string) : string :=
  fold_right String.append EmptyString (map token_digits toks).

(** A string that is empty or starts with a digit. *)
Definition starts_plain (s : string) : Prop :=
  match s with
  | EmptyString => True
  | String c _ => is_digit c = true
  end.

(** The English ordinal suffix of a day number. *)
Definition english_ordinal (day : Z) : string :=
  if (day mod 100 =? 11) || (day mod 100 =? 12) || (day mod 100 =? 13)
  then "th"
  else if day mod 10 =? 1 then "st"
  else if day mod 10 =? 2 then "nd"
  else if day mod 10 =? 3 then "rd"
  else "th".

(** [sub] occurs in [text]. *)
Definition occurs (sub text : string) : Prop :=
  exists pre post, text = (pre +:+ sub +:+ post)%string.

(** [text[e["start"]:e["end"]]], the text an entity marks. *)
Definition gold_slice (text : string) (e : Gen.gold) : string :=
  substring (Z.to_nat (Gen.gold_start e))
    (Z.to_nat (Gen.gold_end e - Gen.gold_start e)) text.

(** The characters of the pool strings: lower-case letters, the
    space and the dot. *)
Definition pool_char (c : ascii) : bool :=
  let n := nat_of_ascii c in
  ((97 <=? n) && (n <=? 122) || (n =? 32) || (n =? 46))%nat.

(** A generator state for evaluating the functions: the [k]-th integer
    drawn is [a + b * k], the floats drawn are all [q]. *)
Definition sample_rng (a b : nat) (q : Q) : Rand.rng :=
  {| Rand.picks := fun k => (a + b * k)%nat; Rand.rolls := fun _ => q;
     Rand.n_picks := 0; Rand.n_rolls := 0 |}.

(** * Properties *)

(** ** The error monad *)

Lemma bind_Ok {A B : Type} (a : A) (k : A -> result B) :
  (x ← Ok a; k x) = k a.
Proof. reflexivity. Qed.

Lemma bind_Raise {A B : Type} (e : exn) (k : A -> result B) :
  (x ← Raise e; k x) = Raise e.
Proof. reflexivity. Qed.

Lemma bind_Ok_inv {A B : Type} (m : result A) (k : A -> result B) (b : B) :
  (x ← m; k x) = Ok b -> exists a, m = Ok a /\ k a = Ok b.
Proof.
  destruct m as [a|e]; intros H.
  - exists a. split; [reflexivity | exact H].
  - discriminate H.
Qed.

(** ** Confidence comparison *)

Lemma lt_false_iff (a b : Q) : Py.lt a b = false <-> (b <= a)%Q.
Proof.
  unfold Py.lt. split.
  - intros H. apply Qnot_lt_le. intros Hlt.
    pose proof (proj1 (Qlt_alt a b) Hlt) as E. rewrite E in H. discriminate.
  - intros Hle. destruct (a ?= b)%Q eqn:E; try reflexivity.
    exfalso. exact (Qle_not_lt _ _ Hle (proj2 (Qlt_alt a b) E)).
Qed.

Lemma lt_true_iff (a b : Q) : Py.lt a b = true <-> (a < b)%Q.
Proof.
  unfold Py.lt. rewrite Qlt_alt.
  destruct (a ?= b)%Q; split; intros H; congruence.
Qed.

Lemma min_cases (a b : Q) :
  (Py.min a b = a /\ (a <= b)%Q) \/ (Py.min a b = b /\ (b < a)%Q).
Proof.
  unfold Py.min. destruct (Py.lt b a) eqn:E.
  - right. split; [reflexivity | by apply lt_true_iff].
  - left. split; [reflexivity | by apply lt_false_iff].
Qed.

Lemma is_minimum_singleton (c : Q) : is_minimum c [c].
Proof.
  split; [left; reflexivity |].
  intros x [<- | []]. apply Qle_refl.
Qed.

Lemma is_minimum_snoc (m c : Q) (cs : list Q) :
  is_minimum m cs -> is_minimum (Py.min m c) (cs ++ [c]).
Proof.
  intros [Hin Hle].
  destruct (min_cases m c) as [[-> Hmc] | [-> Hcm]]; split.
  - apply in_or_app. by left.
  - intros x Hx. apply in_app_or in Hx as [Hx | [<- | []]]; auto.
  - apply in_or_app. right. by left.
  - intros x Hx. apply in_app_or in Hx as [Hx | [<- | []]].
    + apply Qle_trans with m; [by apply Qlt_le_weak | auto].
    + apply Qle_refl.
Qed.

(** ** Label strings *)

Lemma unpack_split_B (X : string) : unpack_split ("B-" +:+ X) = Ok ("B"%string, X).
Proof. reflexivity. Qed.

Lemma unpack_split_I (X : string) : unpack_split ("I-" +:+ X) = Ok ("I"%string, X).
Proof. reflexivity. Qed.


Lemma label_matches_true (cur : option string) (X : string) :
  label_matches cur X = true <-> cur = Some X.
Proof.
  destruct cur as [l|]; simpl.
  - rewrite String.eqb_eq. split; congruence.
  - split; discriminate.
Qed.

Lemma is_marker_iff (off : Z * Z) : is_marker off = true <-> off = (0, 0).
Proof.
  destruct off as [s e]. unfold is_marker. simpl.
  rewrite andb_true_iff, !Z.eqb_eq. split.
  - intros [-> ->]. reflexivity.
  - intros [= -> ->]. split; reflexivity.
Qed.

(** ** Structural markers (C9) *)


(** The zero-length pair (5,5) ends up as a span of the output. *)
Example zero_length_pair_decoded :
  bio_to_spans Sample.ID2LABEL Sample.softmax Sample.text [(0, 4); (5, 5)]
    [3; 7] None 0.1
  = Ok [(0, 4, "CITY"%string, 1%Q); (5, 5, "PHONE"%string, 1%Q)].
Proof. reflexivity. Qed.



(** ** Orphan [I] tokens (C6) *)



(** With no span open nothing is emitted and the span opens at the
    token. *)
Example orphan_inside_when_idle :
  transition "I-EMAIL" 3 8 0.7 init
  = Ok {| spans := []; current_label := Some "EMAIL"%string;
          current_start := 3; current_end := 8;
          current_confidence := 0.7 |}.
Proof. reflexivity. Qed.

(** An [I-EMAIL] token after an open [CITY] span: the [CITY] span is
    in the output, followed by the [EMAIL] span. *)
Example orphan_inside_emits_open_span :
  bio_to_spans Sample.ID2LABEL Sample.softmax "mail me" [(0, 4); (5, 9)]
    [3; 6] None 0.1
  = Ok [(0, 4, "CITY"%string, 1%Q); (5, 9, "EMAIL"%string, 1%Q)].
Proof. reflexivity. Qed.

(** A lone [I-EMAIL] token yields an [EMAIL] span starting at it. *)
Example lone_inside_email :
  bio_to_spans Sample.ID2LABEL Sample.softmax "mail me" [(0, 0); (3, 8); (0, 0)]
    [0; 6; 0] None 0.1 = Ok [(3, 8, "EMAIL"%string, 1%Q)].
Proof. reflexivity. Qed.

(** ** Unparseable label strings (C2) *)

(** C2 as stated fails on both counts: a label string without a dash
    is not handled like [O] but raises [ValueError] at the unpacking of
    the split, and a dashed label with a foreign prefix is skipped
    where [O] closes the open span. *)
Lemma unparseable_not_outside :
  ~ (forall (label : string) (start end_ : Z) (confidence : Q) (st : locals),
       ~ parseable label ->
       transition label start end_ confidence st
         = transition "O" start end_ confidence st)
  /\
  ~ (forall (label : string) (start end_ : Z) (confidence : Q) (st : locals),
       ~ parseable label -> (split_dash label).2 <> None ->
       transition label start end_ confidence st
         = transition "O" start end_ confidence st).
Proof.
  split; intros H.
  - specialize (H "CITY"%string 5 9 1%Q init).
    assert (Hun : ~ parseable "CITY").
    { intros [Heq | [X [Heq | Heq]]]; discriminate Heq. }
    specialize (H Hun). discriminate H.
  - specialize (H "E-CITY"%string 5 9 1%Q (open_span "PHONE" 0 4 1 [])).
    assert (Hun : ~ parseable "E-CITY").
    { intros [Heq | [X [Heq | Heq]]]; discriminate Heq. }
    specialize (H Hun ltac:(discriminate)). discriminate H.
Qed.

(** A dashed label with a foreign prefix does not close the open span
    either: the [PERSON_NAME] span runs on across the [E-CITY] token,
    where an [O] token would have split it. *)
Example foreign_prefix_keeps_span_open :
  bio_to_spans Sample.ID2LABEL Sample.softmax Sample.text [(0, 4); (5, 9); (10, 14)]
    [1; 10; 2] None 0.1 = Ok [(0, 14, "PERSON_NAME"%string, 1%Q)]
  /\
  bio_to_spans Sample.ID2LABEL Sample.softmax Sample.text [(0, 4); (5, 9); (10, 14)]
    [1; 0; 2] None 0.1
  = Ok [(0, 4, "PERSON_NAME"%string, 1%Q); (10, 14, "PERSON_NAME"%string, 1%Q)].
Proof. split; reflexivity. Qed.

(** C2, amended. A token whose label string has a dash but whose
    prefix is neither [B] nor [I] leaves the decoder state unchanged:
    the token is skipped, an open span is neither closed nor emitted,
    and no exception is raised. *)
Theorem foreign_prefix_skipped (label prefix ent_type : string)
    (start end_ : Z) (confidence : Q) (st : locals) :
  split_dash label = (prefix, Some ent_type) ->
  prefix <> "B"%string -> prefix <> "I"%string ->
  transition label start end_ confidence st = Ok st.
Proof.
  intros Hsplit HB HI. unfold transition.
  destruct (String.eqb label "O") eqn:HO.
  - apply String.eqb_eq in HO. subst label. discriminate Hsplit.
  - unfold unpack_split. rewrite Hsplit. simpl.
    apply String.eqb_neq in HB, HI. rewrite HB, HI. reflexivity.
Qed.

Lemma foreign_prefix_skipped_witness :
  (split_dash "E-CITY" = ("E"%string, Some "CITY"%string)
   /\ "E"%string <> "B"%string /\ "E"%string <> "I"%string) /\
  transition "E-CITY" 5 9 0.6 (open_span "PHONE" 0 4 0.9 [])
    = Ok (open_span "PHONE" 0 4 0.9 []).
Proof.
  split; [split; [reflexivity | split; discriminate] |].
  apply (foreign_prefix_skipped "E-CITY" "E" "CITY" 5 9 0.6
           (open_span "PHONE" 0 4 0.9 []));
    [reflexivity | discriminate | discriminate].
Defined.

(** ** The decoder ignores [text] and [confidence_threshold] (C10) *)

(** C10. The span list is a function of the offsets, the label ids and
    the score array alone: two calls that differ only in [text] and in
    [confidence_threshold] return the same result. *)
Theorem bio_to_spans_ignores_text_and_threshold (ID2LABEL : gmap Z string)
    (softmax : list Q -> list Q) (text text' : string)
    (offsets : list (Z * Z)) (label_ids : list Z)
    (logits : option (list (list Q)))
    (confidence_threshold confidence_threshold' : Q) :
  bio_to_spans ID2LABEL softmax text offsets label_ids logits
    confidence_threshold
  = bio_to_spans ID2LABEL softmax text' offsets label_ids logits
    confidence_threshold'.
Proof. reflexivity. Qed.

(** ** The sensitivity filter (C4, C3) *)

Section FilterFacts.

Variable label_is_pii : string -> bool.

Lemma filter_step_keeps (t : Q) (ents : list entity) (sp : span) :
  filter_step label_is_pii t ents sp
  = if keeps label_is_pii t sp then ents ++ [to_entity label_is_pii sp]
    else ents.
Proof.
  destruct sp as [[[s e] lab] conf].
  unfold filter_step, keeps, to_entity, span_label, span_confidence. simpl.
  destruct (label_is_pii lab); simpl; [| reflexivity].
  destruct (Py.lt conf t) eqn:Hlt.
  - destruct (Qle_bool t conf) eqn:Hle; [| reflexivity].
    apply Qle_bool_iff, lt_false_iff in Hle. congruence.
  - apply lt_false_iff, Qle_bool_iff in Hlt. rewrite Hlt. reflexivity.
Qed.

Lemma filter_loop_acc (t : Q) (sps : list span) (acc : list entity) :
  fold_left (filter_step label_is_pii t) sps acc
  = acc ++ map (to_entity label_is_pii) (List.filter (keeps label_is_pii t) sps).
Proof.
  revert acc. induction sps as [| sp sps IH]; intros acc; simpl.
  - by rewrite app_nil_r.
  - rewrite IH, filter_step_keeps.
    destruct (keeps label_is_pii t sp); simpl; [| reflexivity].
    by rewrite <- app_assoc.
Qed.

Lemma keeps_iff (t : Q) (sp : span) :
  keeps label_is_pii t sp = true
  <-> label_is_pii (span_label sp) = false \/ (t <= span_confidence sp)%Q.
Proof.
  unfold keeps. rewrite orb_true_iff, negb_true_iff, Qle_bool_iff. tauto.
Qed.

End FilterFacts.

(** C4. For every threshold (in particular every one in [[0,1]]) the
    filter returns exactly the spans that are not PII or whose
    confidence is at least the threshold, in their original order, each
    turned into an entity with the span's start, end and label and the
    [pii] flag of the registry. *)
Theorem filter_spans_spec (label_is_pii : string -> bool)
    (confidence_threshold : Q) (sps : list span) :
  filter_spans label_is_pii confidence_threshold sps
    = map (to_entity label_is_pii)
          (List.filter (keeps label_is_pii confidence_threshold) sps)
  /\ (forall sp, keeps label_is_pii confidence_threshold sp = true
        <-> label_is_pii (span_label sp) = false
            \/ (confidence_threshold <= span_confidence sp)%Q)
  /\ (forall sp, ent_start (to_entity label_is_pii sp) = span_start sp
        /\ ent_end (to_entity label_is_pii sp) = span_end sp
        /\ ent_label (to_entity label_is_pii sp) = span_label sp
        /\ ent_pii (to_entity label_is_pii sp) = label_is_pii (span_label sp)).
Proof.
  split; [| split].
  - unfold filter_spans. by rewrite filter_loop_acc.
  - apply keeps_iff.
  - intros [[[s e] lab] conf]. repeat split.
Qed.

(** Filter gating: at threshold 0.5 a [PERSON_NAME] span of confidence
    0.3 is dropped and a [CITY] span of confidence 0.1 is kept. *)
Example filter_gating :
  filter_spans Sample.label_is_pii 0.5
    [(0, 4, "PERSON_NAME"%string, 0.3%Q); (8, 12, "CITY"%string, 0.1%Q)]
  = [ {| ent_start := 8; ent_end := 12; ent_label := "CITY";
         ent_pii := false |} ].
Proof. reflexivity. Qed.

(** C3 as stated fails: a threshold outside [[0,1]] is not rejected;
    the utterance is decoded and filtered like with any other value. *)
Lemma threshold_out_of_range_accepted :
  ~ (forall (label_is_pii : string -> bool) (ID2LABEL : gmap Z string)
       (softmax : list Q -> list Q) (text : string) (offsets : list (Z * Z))
       (pred_ids : list Z) (logits : list (list Q)) (confidence_threshold : Q),
       ~ (0 <= confidence_threshold /\ confidence_threshold <= 1)%Q ->
       is_ok (predict_utterance label_is_pii ID2LABEL softmax text offsets
                pred_ids logits confidence_threshold) = false).
Proof.
  intros H.
  specialize (H Sample.label_is_pii Sample.ID2LABEL Sample.softmax Sample.text
                [(0, 4)] [3] [Sample.row_for 3 0.9] 1.5%Q).
  assert (Hout : ~ (0 <= 1.5 /\ 1.5 <= 1)%Q).
  { intros [_ Hle]. revert Hle. unfold Qle. simpl. lia. }
  specialize (H Hout). vm_compute in H. discriminate H.
Qed.

(** C3, amended. For every threshold, inside or outside [[0,1]],
    filtering proceeds: the utterance fails only if decoding raises
    (the decoder never consults the threshold), and otherwise the
    result is the filtered span list. *)
Theorem threshold_never_rejected (label_is_pii : string -> bool)
    (ID2LABEL : gmap Z string) (softmax : list Q -> list Q) (text : string)
    (offsets : list (Z * Z)) (pred_ids : list Z) (logits : list (list Q))
    (confidence_threshold : Q) :
  match bio_to_spans ID2LABEL softmax text offsets pred_ids (Some logits)
          confidence_threshold with
  | Ok sps =>
      predict_utterance label_is_pii ID2LABEL softmax text offsets pred_ids
        logits confidence_threshold
      = Ok (map (to_entity label_is_pii)
              (List.filter (keeps label_is_pii confidence_threshold) sps))
  | Raise e =>
      predict_utterance label_is_pii ID2LABEL softmax text offsets pred_ids
        logits confidence_threshold
      = Raise e
  end.
Proof.
  unfold predict_utterance.
  destruct (bio_to_spans _ _ _ _ _ _ _) as [sps | e]; simpl; [| reflexivity].
  unfold filter_spans. by rewrite filter_loop_acc.
Qed.

(** Thresholds outside the range simply act as limits: above 1 every
    PII span of confidence at most 1 is dropped, below 0 every span of
    non-negative confidence is kept. *)
Example threshold_out_of_range_behaviour :
  filter_spans Sample.label_is_pii 1.5
    [(0, 4, "PERSON_NAME"%string, 1%Q); (8, 12, "CITY"%string, 0.1%Q)]
  = [ {| ent_start := 8; ent_end := 12; ent_label := "CITY";
         ent_pii := false |} ]
  /\
  filter_spans Sample.label_is_pii (-0.5)
    [(0, 4, "PERSON_NAME"%string, 0%Q); (8, 12, "CITY"%string, 0.1%Q)]
  = [ {| ent_start := 0; ent_end := 4; ent_label := "PERSON_NAME";
         ent_pii := true |};
      {| ent_start := 8; ent_end := 12; ent_label := "CITY";
         ent_pii := false |} ].
Proof. split; reflexivity. Qed.

(** ** The loop *)

Section RunFacts.

Variable ID2LABEL : gmap Z string.
Variable softmax : list Q -> list Q.

Lemma run_app (logits : option (list (list Q))) (xs ys : list ((Z * Z) * Z))
    (idx : nat) (st : locals) :
  run ID2LABEL softmax logits idx (xs ++ ys) st
  = (st' ← run ID2LABEL softmax logits idx xs st; run ID2LABEL softmax logits (idx + length xs)%nat ys st').
Proof.
  revert idx st. induction xs as [| x xs IH]; intros idx st; simpl.
  - by rewrite Nat.add_0_r.
  - destruct (step ID2LABEL softmax logits idx x st) as [st1 | e]; simpl;
      [| reflexivity].
    rewrite IH. by replace (S idx + length xs)%nat with (idx + S (length xs))%nat by lia.
Qed.

Lemma run_markers (logits : option (list (list Q))) (mk : list ((Z * Z) * Z))
    (idx : nat) (st : locals) :
  Forall (fun tok => is_marker tok.1 = true) mk ->
  run ID2LABEL softmax logits idx mk st = Ok st.
Proof.
  intros H. revert idx. induction H as [| [[s e] lid] mk Hm _ IH]; intros idx.
  - reflexivity.
  - simpl in *. rewrite Hm. simpl. apply IH.
Qed.

(** The flush of lines 64-65. *)
Lemma flush_open (st : locals) (lab : string) :
  current_label st = Some lab ->
  append_open st
  = spans st ++ [(current_start st, current_end st, lab, current_confidence st)].
Proof. intros H. unfold append_open. by rewrite H. Qed.

(** After a [B-X] or [I-X] token a span of type [X] ending at the
    token's end is open. *)
Lemma step_entity_token_opens (logits : option (list (list Q))) (idx : nat)
    (start end_ lid : Z) (X : string) (st st' : locals) :
  is_marker (start, end_) = false ->
  label_of ID2LABEL lid = ("B-" +:+ X)%string
    \/ label_of ID2LABEL lid = ("I-" +:+ X)%string ->
  step ID2LABEL softmax logits idx ((start, end_), lid) st = Ok st' ->
  current_label st' = Some X /\ current_end st' = end_.
Proof.
  intros Hm Hlab Hstep. unfold step in Hstep.
  rewrite Hm in Hstep.
  apply bind_Ok_inv in Hstep as (c & _ & Htr).
  destruct Hlab as [Hl | Hl]; rewrite Hl in Htr; unfold transition in Htr.
  - change (String.eqb ("B-" +:+ X) "O") with false in Htr.
    rewrite unpack_split_B in Htr. simpl in Htr.
    injection Htr as <-. split; reflexivity.
  - change (String.eqb ("I-" +:+ X) "O") with false in Htr.
    rewrite unpack_split_I in Htr. simpl in Htr.
    destruct (label_matches (current_label st) X) eqn:Hlm;
      injection Htr as <-; simpl; [| split; reflexivity].
    apply label_matches_true in Hlm. split; [exact Hlm | reflexivity].
Qed.

Lemma transition_not_IndexError (label : string) (start end_ : Z) (c : Q)
    (st : locals) :
  transition label start end_ c st <> Raise IndexError.
Proof.
  unfold transition. destruct (String.eqb label "O").
  - destruct (current_label st); discriminate.
  - unfold unpack_split. destruct (split_dash label) as [p [r |]]; simpl;
      [| discriminate].
    destruct (String.eqb p "B"); [discriminate |].
    destruct (String.eqb p "I"); [| discriminate].
    destruct (label_matches _ _); discriminate.
Qed.

Lemma getitem_in_range {A : Type} (xs : list A) (i : Z) :
  - Z.of_nat (length xs) <= i < Z.of_nat (length xs) ->
  exists x, getitem xs i = Ok x.
Proof.
  intros Hi. unfold getitem, getitem_nat.
  destruct (Z_lt_le_dec i 0) as [Hneg | Hpos].
  - replace (0 <=? i) with false by (symmetry; apply Z.leb_gt; lia).
    replace (- Z.of_nat (length xs) <=? i) with true
      by (symmetry; apply Z.leb_le; lia).
    replace (i <? 0) with true by (symmetry; apply Z.ltb_lt; lia). simpl.
    destruct (lookup_lt_is_Some_2 xs (Z.to_nat (Z.of_nat (length xs) + i)))
      as [x Hx]; [lia |].
    rewrite Hx. eauto.
  - replace (0 <=? i) with true by (symmetry; apply Z.leb_le; lia).
    replace (i <? Z.of_nat (length xs)) with true
      by (symmetry; apply Z.ltb_lt; lia). simpl.
    destruct (lookup_lt_is_Some_2 xs (Z.to_nat i)) as [x Hx]; [lia |].
    rewrite Hx. eauto.
Qed.

Lemma run_no_IndexError (logits : option (list (list Q)))
    (toks : list ((Z * Z) * Z)) (idx : nat) (st : locals) :
  logits_cover softmax logits idx toks ->
  run ID2LABEL softmax logits idx toks st <> Raise IndexError.
Proof.
  revert idx st. induction toks as [| [[s e] lid] toks IH]; intros idx st Hcov.
  - discriminate.
  - simpl. destruct (is_marker (s, e)) eqn:Hm; simpl.
    + apply IH. intros rows Hr k off l Hk Hoff.
      destruct (Hcov rows Hr (S k) off l Hk Hoff) as (row & Hrow & Hin).
      exists row. split; [| exact Hin].
      by replace (S idx + k)%nat with (idx + S k)%nat by lia.
    + assert (Hc : exists c, confidence_at softmax logits idx lid = Ok c).
      { destruct logits as [rows |]; simpl; [| eauto].
        destruct (Hcov rows eq_refl 0%nat (s, e) lid eq_refl Hm)
          as (row & Hrow & Hin).
        rewrite Nat.add_0_r in Hrow. unfold getitem_nat at 1.
        rewrite Hrow. simpl. by apply getitem_in_range. }
      destruct Hc as [c ->]. simpl.
      destruct (transition _ s e c st) as [st1 | ex] eqn:Htr; simpl.
      * apply IH. intros rows Hr k off l Hk Hoff.
        destruct (Hcov rows Hr (S k) off l Hk Hoff) as (row & Hrow & Hin).
        exists row. split; [| exact Hin].
        by replace (S idx + k)%nat with (idx + S k)%nat by lia.
      * intros [= ->]. by apply transition_not_IndexError in Htr.
Qed.

End RunFacts.

(** ** Flush at the end of the stream (C7) *)

(** C7. When the loop ends with a span still open, the decoder returns
    the spans emitted so far followed by that open span: the last span
    of the output is the open one, with its start, end, type and
    confidence. *)
Theorem flush_emits_open_span (ID2LABEL : gmap Z string)
    (softmax : list Q -> list Q) (text : string) (offsets : list (Z * Z))
    (label_ids : list Z) (logits : option (list (list Q)))
    (confidence_threshold : Q) (st : locals) (lab : string) :
  run ID2LABEL softmax logits 0 (zip offsets label_ids) init = Ok st ->
  current_label st = Some lab ->
  let final := (current_start st, current_end st, lab, current_confidence st) in
  bio_to_spans ID2LABEL softmax text offsets label_ids logits
    confidence_threshold = Ok (spans st ++ [final])
  /\ last (spans st ++ [final]) = Some final.
Proof.
  intros Hrun Hopen final. unfold bio_to_spans. rewrite Hrun. simpl.
  rewrite (flush_open st lab Hopen). split; [reflexivity |].
  apply last_snoc.
Qed.

Lemma flush_emits_open_span_witness :
  let st := {| spans := [(0, 4, "CITY"%string, 1%Q)];
               current_label := Some "PHONE"%string;
               current_start := 5; current_end := 14;
               current_confidence := 1%Q |} in
  (run Sample.ID2LABEL Sample.softmax None 0 (zip [(0, 4); (5, 9); (10, 14)] [3; 7; 8])
     init = Ok st
   /\ current_label st = Some "PHONE"%string) /\
  (bio_to_spans Sample.ID2LABEL Sample.softmax Sample.text [(0, 4); (5, 9); (10, 14)]
     [3; 7; 8] None 0.1
   = Ok [(0, 4, "CITY"%string, 1%Q); (5, 14, "PHONE"%string, 1%Q)]
   /\ last [(0, 4, "CITY"%string, 1%Q); (5, 14, "PHONE"%string, 1%Q)]
      = Some (5, 14, "PHONE"%string, 1%Q)).
Proof.
  intros st. split; [split; reflexivity |].
  apply (flush_emits_open_span Sample.ID2LABEL Sample.softmax Sample.text
           [(0, 4); (5, 9); (10, 14)] [3; 7; 8] None 0.1 st "PHONE");
    reflexivity.
Defined.

(** In terms of tokens: when the last non-marker token is a [B-X] or
    [I-X] token, the output ends with a span of type [X] that ends at
    that token. *)
Lemma entity_token_at_end_is_emitted (ID2LABEL : gmap Z string)
    (softmax : list Q -> list Q) (text : string) (offsets : list (Z * Z))
    (label_ids : list Z) (logits : option (list (list Q)))
    (confidence_threshold : Q) (pre mk : list ((Z * Z) * Z))
    (start end_ lid : Z) (X : string) (out : list span) :
  zip offsets label_ids = pre ++ ((start, end_), lid) :: mk ->
  Forall (fun tok => is_marker tok.1 = true) mk ->
  is_marker (start, end_) = false ->
  label_of ID2LABEL lid = ("B-" +:+ X)%string
    \/ label_of ID2LABEL lid = ("I-" +:+ X)%string ->
  bio_to_spans ID2LABEL softmax text offsets label_ids logits
    confidence_threshold = Ok out ->
  exists sp, last out = Some sp /\ span_label sp = X /\ span_end sp = end_.
Proof.
  intros Hzip Hmk Hm Hlab Hout. unfold bio_to_spans in Hout.
  apply bind_Ok_inv in Hout as (st & Hrun & [= <-]).
  rewrite Hzip, run_app in Hrun.
  apply bind_Ok_inv in Hrun as (st1 & _ & Hrun). simpl in Hrun.
  apply bind_Ok_inv in Hrun as (st2 & Hstep & Hrun).
  rewrite (run_markers _ _ _ _ _ _ Hmk) in Hrun. injection Hrun as <-.
  destruct (step_entity_token_opens _ _ _ _ _ _ _ _ _ _ Hm Hlab Hstep)
    as [Hcur Hend].
  rewrite (flush_open _ _ Hcur), last_snoc.
  eexists. split; [reflexivity |]. split; [reflexivity | exact Hend].
Qed.

(** ** Streams of unequal length (C8) *)

(** C8 as stated fails: the two streams are zipped, but the score
    array is indexed by position.  With three offsets, two label ids
    and a score array of one row, the second position raises
    [IndexError]. *)
Lemma short_logits_index_error :
  ~ (forall (ID2LABEL : gmap Z string) (softmax : list Q -> list Q)
       (text : string) (offsets : list (Z * Z)) (label_ids : list Z)
       (logits : option (list (list Q))) (confidence_threshold : Q),
       length offsets <> length label_ids ->
       let n := Nat.min (length offsets) (length label_ids) in
       bio_to_spans ID2LABEL softmax text offsets label_ids logits
         confidence_threshold
       = bio_to_spans ID2LABEL softmax text (take n offsets)
           (take n label_ids) logits confidence_threshold
       /\ bio_to_spans ID2LABEL softmax text offsets label_ids logits
            confidence_threshold <> Raise IndexError).
Proof.
  intros H.
  destruct (H Sample.ID2LABEL Sample.softmax Sample.text
              [(0, 4); (5, 9); (10, 14)] [3; 4]
              (Some [Sample.row_for 3 0.9]) 0.1%Q) as [_ Hno].
  - simpl. lia.
  - apply Hno. reflexivity.
Qed.

(** A missing row raises [IndexError] when the loop reaches its
    position. *)
Lemma run_missing_row (ID2LABEL : gmap Z string) (softmax : list Q -> list Q)
    (rows : list (list Q)) (toks : list ((Z * Z) * Z)) (i : nat)
    (off : Z * Z) (lid : Z) (st : locals) :
  toks !! i = Some (off, lid) ->
  is_marker off = false ->
  rows !! i = None ->
  run ID2LABEL softmax (Some rows) 0 (take i toks) init = Ok st ->
  run ID2LABEL softmax (Some rows) 0 toks init = Raise IndexError.
Proof.
  intros Htok Hm Hrow Hpre.
  pose proof (lookup_lt_Some _ _ _ Htok) as Hlt.
  rewrite <- (take_drop_middle _ _ _ Htok), run_app, Hpre.
  rewrite length_take, Nat.min_l by lia.
  destruct off as [s e]. simpl. rewrite Hm. simpl.
  unfold getitem_nat at 1. rewrite Hrow. reflexivity.
Qed.

(** C8, amended. For streams of equal or unequal length the decoder
    processes exactly the first [min(len(offsets), len(label_ids))]
    positions: the result is that of the two streams cut to this
    length, and neither stream is indexed out of bounds (without a
    score array no [IndexError] is raised).  A score array is indexed
    only at non-marker positions: no [IndexError] is raised when it has
    a row, with an entry at the label id, at every non-marker position
    among these, and [IndexError] is raised when decoding reaches a
    non-marker position for which it has no row. *)
Theorem decode_over_shorter_stream (ID2LABEL : gmap Z string)
    (softmax : list Q -> list Q) (text : string) (offsets : list (Z * Z))
    (label_ids : list Z) (logits : option (list (list Q)))
    (confidence_threshold : Q) :
  let n := Nat.min (length offsets) (length label_ids) in
  length (zip offsets label_ids) = n
  /\ bio_to_spans ID2LABEL softmax text offsets label_ids logits
       confidence_threshold
     = bio_to_spans ID2LABEL softmax text (take n offsets) (take n label_ids)
         logits confidence_threshold
  /\ bio_to_spans ID2LABEL softmax text offsets label_ids None
       confidence_threshold <> Raise IndexError
  /\ (logits_cover softmax logits 0 (zip offsets label_ids) ->
      bio_to_spans ID2LABEL softmax text offsets label_ids logits
        confidence_threshold <> Raise IndexError)
  /\ (forall rows (i : nat) off lid st,
        logits = Some rows ->
        offsets !! i = Some off -> label_ids !! i = Some lid ->
        is_marker off = false ->
        rows !! i = None ->
        run ID2LABEL softmax logits 0 (take i (zip offsets label_ids)) init
          = Ok st ->
        bio_to_spans ID2LABEL softmax text offsets label_ids logits
          confidence_threshold = Raise IndexError).
Proof.
  intros n.
  assert (Hno : forall lg, logits_cover softmax lg 0 (zip offsets label_ids) ->
            bio_to_spans ID2LABEL softmax text offsets label_ids lg
              confidence_threshold <> Raise IndexError).
  { intros lg Hcov. unfold bio_to_spans.
    destruct (run ID2LABEL softmax lg 0 (zip offsets label_ids) init)
      as [st | e] eqn:Hrun; simpl; [discriminate |].
    intros [= ->]. revert Hrun. by apply run_no_IndexError. }
  split; [apply length_zip_with |]. split; [| split; [| split]].
  - unfold bio_to_spans.
    replace (zip (take n offsets) (take n label_ids))
      with (zip offsets label_ids); [reflexivity |].
    symmetry. apply zip_with_take_both'; unfold n; lia.
  - apply Hno. intros rows Hr. discriminate Hr.
  - apply Hno.
  - intros rows i off lid st -> Hoff Hlid Hm Hrow Hpre.
    assert (Htok : zip offsets label_ids !! i = Some (off, lid)).
    { apply lookup_zip_with_Some. eauto. }
    unfold bio_to_spans.
    by rewrite (run_missing_row _ _ _ _ _ _ _ _ Htok Hm Hrow Hpre).
Qed.

Lemma decode_over_shorter_stream_witness :
  let covering := Some [[]; Sample.row_for 3 0.9] in
  let short := Some [Sample.row_for 3 0.9] in
  (logits_cover Sample.softmax covering 0 (zip [(0, 0); (0, 4); (5, 9)] [0; 3])
   /\ [(0, 4); (5, 9); (10, 14)] !! 1%nat = Some (5, 9)
   /\ [3; 4] !! 1%nat = Some 4
   /\ is_marker (5, 9) = false
   /\ [Sample.row_for 3 0.9] !! 1%nat = None
   /\ run Sample.ID2LABEL Sample.softmax short 0
        (take 1 (zip [(0, 4); (5, 9); (10, 14)] [3; 4])) init
      = Ok (open_span "CITY" 0 4 0.9 []))
  /\ (length (zip [(0, 0); (0, 4); (5, 9)] [0; 3]) = 2%nat
      /\ bio_to_spans Sample.ID2LABEL Sample.softmax Sample.text
           [(0, 0); (0, 4); (5, 9)] [0; 3] covering 0.1
         = bio_to_spans Sample.ID2LABEL Sample.softmax Sample.text
             [(0, 0); (0, 4)] [0; 3] covering 0.1
      /\ bio_to_spans Sample.ID2LABEL Sample.softmax Sample.text
           [(0, 0); (0, 4); (5, 9)] [0; 3] covering 0.1 <> Raise IndexError
      /\ bio_to_spans Sample.ID2LABEL Sample.softmax Sample.text
           [(0, 4); (5, 9); (10, 14)] [3; 4] short 0.1 = Raise IndexError).
Proof.
  intros covering short.
  assert (Hcov : logits_cover Sample.softmax covering 0
                   (zip [(0, 0); (0, 4); (5, 9)] [0; 3])).
  { intros rows [= <-] k off lid Hk Hoff.
    destruct k as [| [| k]]; simpl in Hk.
    - injection Hk as <- <-. discriminate Hoff.
    - injection Hk as <- <-. eexists. split; [reflexivity |].
      unfold Sample.softmax. simpl. lia.
    - discriminate Hk. }
  split.
  { split; [exact Hcov |]. repeat (split; [reflexivity |]). reflexivity. }
  destruct (decode_over_shorter_stream Sample.ID2LABEL Sample.softmax
              Sample.text [(0, 0); (0, 4); (5, 9)] [0; 3] covering 0.1)
    as (Hlen & Htrunc & _ & Hno & _).
  destruct (decode_over_shorter_stream Sample.ID2LABEL Sample.softmax
              Sample.text [(0, 4); (5, 9); (10, 14)] [3; 4] short 0.1)
    as (_ & _ & _ & _ & Hmiss).
  split; [exact Hlen |]. split; [exact Htrunc |]. split; [exact (Hno Hcov) |].
  exact (Hmiss [Sample.row_for 3 0.9] 1%nat (5, 9) 4
           (open_span "CITY" 0 4 0.9 []) eq_refl eq_refl eq_refl eq_refl
           eq_refl eq_refl).
Defined.

(** ** Order of the decoded spans (C1) *)

Lemma spans_ordered_nil : spans_ordered [].
Proof. split; [intros sp [] | intros i sp sp' Hi; discriminate Hi]. Qed.

Lemma spans_ordered_snoc (sps : list span) (s e : Z) (lab : string) (c : Q) :
  spans_ordered sps ->
  (forall sp, In sp sps -> span_end sp <= s) ->
  s < e ->
  spans_ordered (sps ++ [(s, e, lab, c)]).
Proof.
  intros [Hne Hadj] Hbefore Hse. split.
  - intros sp Hin. apply in_app_or in Hin as [Hin | [<- | []]]; [auto | exact Hse].
  - intros i sp sp' Hi HSi.
    apply lookup_snoc_Some in HSi as [[Hlt HSi] | [Hlen <-]].
    + rewrite lookup_app_l in Hi by lia. eauto.
    + rewrite lookup_app_l in Hi by lia.
      assert (Hin : In sp sps).
      { apply list_elem_of_In. by eapply list_elem_of_lookup_2. }
      specialize (Hne sp Hin). specialize (Hbefore sp Hin).
      destruct sp as [[[s0 e0] l0] c0].
      unfold span_start, span_end in *. simpl in *. lia.
Qed.

Lemma ordered_state_mono (lo lo' : Z) (st : locals) :
  lo <= lo' -> ordered_state lo st -> ordered_state lo' st.
Proof.
  intros Hle [Hord Hcur]. split; [exact Hord |].
  destruct (current_label st).
  - destruct Hcur as (? & ? & ?). repeat split; [assumption | assumption | lia].
  - intros sp Hin. specialize (Hcur sp Hin). lia.
Qed.

(** Appending the open span keeps the output ordered, below [lo]. *)
Lemma ordered_state_append_open (lo : Z) (st : locals) :
  ordered_state lo st ->
  spans_ordered (append_open st)
  /\ forall sp, In sp (append_open st) -> span_end sp <= lo.
Proof.
  intros [Hord Hcur]. unfold append_open.
  destruct (current_label st) as [lab |].
  - destruct Hcur as (Hbefore & Hse & Hlo). split.
    + by apply spans_ordered_snoc.
    + intros sp Hin. apply in_app_or in Hin as [Hin | [<- | []]].
      * specialize (Hbefore sp Hin). lia.
      * exact Hlo.
  - split; assumption.
Qed.

Lemma open_span_ordered (lo : Z) (st : locals) (X : string) (s e : Z) (c : Q) :
  ordered_state lo st -> lo <= s -> s < e ->
  ordered_state e (open_span X s e c (append_open st)).
Proof.
  intros Hst Hlo Hse.
  destruct (ordered_state_append_open lo st Hst) as [Hord Hends].
  split; [exact Hord |]. simpl. repeat split; [| exact Hse | lia].
  intros sp Hin. specialize (Hends sp Hin). lia.
Qed.

Lemma transition_ordered (label : string) (lo s e : Z) (c : Q)
    (st st' : locals) :
  ordered_state lo st -> lo <= s -> s < e ->
  transition label s e c st = Ok st' ->
  ordered_state e st'.
Proof.
  intros Hst Hlo Hse Htr. unfold transition in Htr.
  destruct (String.eqb label "O").
  - destruct (current_label st) as [lab |] eqn:Hcur.
    + injection Htr as <-.
      destruct (ordered_state_append_open lo st Hst) as [Hord Hends].
      split; [exact Hord |]. simpl.
      intros sp Hin. specialize (Hends sp Hin). lia.
    + injection Htr as <-. apply ordered_state_mono with lo; [lia | exact Hst].
  - apply bind_Ok_inv in Htr as ([p X] & _ & Htr).
    destruct (String.eqb p "B").
    { injection Htr as <-. by apply open_span_ordered with lo. }
    destruct (String.eqb p "I").
    + destruct (label_matches (current_label st) X) eqn:Hlm.
      * injection Htr as <-. apply label_matches_true in Hlm.
        destruct Hst as [Hord Hcur]. rewrite Hlm in Hcur.
        destruct Hcur as (Hbefore & Hcs & Hce).
        split; [exact Hord |]. simpl. rewrite Hlm.
        repeat split; [exact Hbefore | lia | lia].
      * injection Htr as <-. by apply open_span_ordered with lo.
    + injection Htr as <-. apply ordered_state_mono with lo; [lia | exact Hst].
Qed.

Lemma run_ordered (ID2LABEL : gmap Z string) (softmax : list Q -> list Q)
    (logits : option (list (list Q))) (toks : list ((Z * Z) * Z))
    (idx : nat) (lo : Z) (st st' : locals) :
  offsets_ordered lo (toks.*1) ->
  ordered_state lo st ->
  run ID2LABEL softmax logits idx toks st = Ok st' ->
  exists lo', ordered_state lo' st'.
Proof.
  revert idx lo st.
  induction toks as [| [[s e] lid] toks IH]; intros idx lo st Hoff Hst Hrun.
  - injection Hrun as <-. eauto.
  - simpl in Hrun, Hoff.
    apply bind_Ok_inv in Hrun as (st1 & Hstep & Hrun).
    destruct (is_marker (s, e)) eqn:Hm.
    + injection Hstep as <-. eauto.
    + destruct Hoff as (Hlo & Hse & Hoff). simpl in Hlo, Hse, Hoff.
      apply bind_Ok_inv in Hstep as (c & _ & Htr).
      eapply (IH _ e st1); [exact Hoff | | exact Hrun].
      by apply transition_ordered with (label_of ID2LABEL lid) lo s c st.
Qed.

Lemma fst_zip_take {A B : Type} (l : list A) (k : list B) :
  (zip l k).*1 = take (length k) l.
Proof.
  revert k. induction l as [| a l IH]; intros [| b k]; simpl; try reflexivity.
  by rewrite IH.
Qed.

(** C1 as stated fails: the decoder copies the offsets it is given,
    so an offset pair with [end <= start] yields such a span. *)
Lemma spans_follow_offsets :
  ~ (forall (ID2LABEL : gmap Z string) (softmax : list Q -> list Q)
       (text : string) (offsets : list (Z * Z)) (label_ids : list Z)
       (logits : option (list (list Q))) (confidence_threshold : Q)
       (out : list span),
       bio_to_spans ID2LABEL softmax text offsets label_ids logits
         confidence_threshold = Ok out ->
       spans_ordered out).
Proof.
  intros H.
  destruct (H Sample.ID2LABEL Sample.softmax Sample.text [(4, 2)] [3] None 0.1%Q
              [(4, 2, "CITY"%string, 1%Q)] eq_refl) as [Hne _].
  specialize (Hne (4, 2, "CITY"%string, 1%Q) (or_introl eq_refl)).
  unfold span_start, span_end in Hne. simpl in Hne. lia.
Qed.

(** Tokens out of order give spans out of order. *)
Example spans_follow_token_order :
  bio_to_spans Sample.ID2LABEL Sample.softmax Sample.text [(5, 9); (0, 3)] [3; 7] None 0.1
  = Ok [(5, 9, "CITY"%string, 1%Q); (0, 3, "PHONE"%string, 1%Q)].
Proof. reflexivity. Qed.

(** C1, amended. When the offsets that are paired with a label are
    those of a tokenizer (every non-marker token is a non-empty range
    that starts at or after the end of the previous one), every
    returned span has [start < end], and consecutive spans are strictly
    ordered by start and do not overlap. *)
Theorem decoded_spans_ordered (ID2LABEL : gmap Z string)
    (softmax : list Q -> list Q) (text : string) (offsets : list (Z * Z))
    (label_ids : list Z) (logits : option (list (list Q)))
    (confidence_threshold : Q) (lo : Z) (out : list span) :
  offsets_ordered lo (take (length label_ids) offsets) ->
  bio_to_spans ID2LABEL softmax text offsets label_ids logits
    confidence_threshold = Ok out ->
  (forall sp, In sp out -> span_start sp < span_end sp)
  /\ (forall (i : nat) sp sp', out !! i = Some sp -> out !! S i = Some sp' ->
        span_start sp < span_start sp' /\ span_end sp <= span_start sp').
Proof.
  intros Hoff Hout. unfold bio_to_spans in Hout.
  apply bind_Ok_inv in Hout as (st & Hrun & [= <-]).
  rewrite <- fst_zip_take in Hoff.
  assert (Hinit : ordered_state lo init).
  { split; [apply spans_ordered_nil | intros sp []]. }
  destruct (run_ordered _ _ _ _ _ _ _ _ Hoff Hinit Hrun) as [lo' Hst].
  apply (ordered_state_append_open lo' st Hst).
Qed.

Lemma decoded_spans_ordered_witness :
  let out := [(0, 10, "PERSON_NAME"%string, 1%Q); (11, 15, "CITY"%string, 1%Q)] in
  (offsets_ordered 0 (take (length [0; 1; 2; 3; 0]) [(0, 0); (0, 4); (5, 10); (11, 15); (0, 0)])
   /\ bio_to_spans Sample.ID2LABEL Sample.softmax Sample.text
        [(0, 0); (0, 4); (5, 10); (11, 15); (0, 0)] [0; 1; 2; 3; 0] None 0.1
      = Ok out) /\
  ((forall sp, In sp out -> span_start sp < span_end sp)
   /\ (forall (i : nat) sp sp', out !! i = Some sp -> out !! S i = Some sp' ->
         span_start sp < span_start sp' /\ span_end sp <= span_start sp')).
Proof.
  intros out.
  assert (Hoff : offsets_ordered 0
            (take (length [0; 1; 2; 3; 0])
               [(0, 0); (0, 4); (5, 10); (11, 15); (0, 0)])).
  { simpl. lia. }
  split; [split; [exact Hoff | reflexivity] |].
  exact (decoded_spans_ordered Sample.ID2LABEL Sample.softmax Sample.text
           [(0, 0); (0, 4); (5, 10); (11, 15); (0, 0)] [0; 1; 2; 3; 0] None 0.1
           0 out Hoff eq_refl).
Defined.

(** ** Aggregated confidence (C5) *)

Section TraceFacts.

Variable ID2LABEL : gmap Z string.
Variable softmax : list Q -> list Q.

(** The trace is a ghost: it follows the decoder and never steers it. *)
Lemma step_traced_erase (logits : option (list (list Q))) (idx : nat)
    (tok : (Z * Z) * Z) (st : locals) (tr : trace) :
  match step ID2LABEL softmax logits idx tok st with
  | Ok st' =>
      exists tr', step_traced ID2LABEL softmax logits idx tok (st, tr)
                  = Ok (st', tr')
  | Raise e => step_traced ID2LABEL softmax logits idx tok (st, tr) = Raise e
  end.
Proof.
  unfold step_traced.
  destruct (step ID2LABEL softmax logits idx tok st) as [st' | e] eqn:Hstep;
    simpl; [| reflexivity].
  destruct tok as [[s e] lid]. simpl.
  destruct (is_marker (s, e)) eqn:Hm; [eauto |].
  unfold step in Hstep. rewrite Hm in Hstep.
  apply bind_Ok_inv in Hstep as (c & Hc & _). rewrite Hc. simpl. eauto.
Qed.

Lemma run_traced_erase (logits : option (list (list Q)))
    (toks : list ((Z * Z) * Z)) (idx : nat) (st : locals) (tr : trace) :
  match run ID2LABEL softmax logits idx toks st with
  | Ok st' =>
      exists tr', run_traced ID2LABEL softmax logits idx toks (st, tr)
                  = Ok (st', tr')
  | Raise e => run_traced ID2LABEL softmax logits idx toks (st, tr) = Raise e
  end.
Proof.
  revert idx st tr. induction toks as [| tok toks IH]; intros idx st tr.
  - simpl. eauto.
  - change (run ID2LABEL softmax logits idx (tok :: toks) st)
      with (st1 ← step ID2LABEL softmax logits idx tok st;
            run ID2LABEL softmax logits (S idx) toks st1).
    change (run_traced ID2LABEL softmax logits idx (tok :: toks) (st, tr))
      with (stt ← step_traced ID2LABEL softmax logits idx tok (st, tr);
            run_traced ID2LABEL softmax logits (S idx) toks stt).
    pose proof (step_traced_erase logits idx tok st tr) as Hs.
    destruct (step ID2LABEL softmax logits idx tok st) as [st1 | e].
    + destruct Hs as [tr1 ->]. rewrite !bind_Ok. apply IH.
    + rewrite Hs. reflexivity.
Qed.

Lemma close_group_agrees (st : locals) (tr : trace) :
  trace_agrees st tr ->
  Forall2 (fun sp cs => is_minimum (span_confidence sp) cs)
    (append_open st) (close_group (current_label st) tr).
Proof.
  intros [Hclosed Hopen]. unfold append_open, close_group.
  destruct (current_label st) as [lab |]; [| exact Hclosed].
  apply Forall2_app; [exact Hclosed |].
  constructor; [| constructor]. exact (Hopen lab eq_refl).
Qed.

Lemma open_span_agrees (st : locals) (tr : trace) (X : string) (s e : Z)
    (c : Q) :
  trace_agrees st tr ->
  trace_agrees (open_span X s e c (append_open st))
    (close_group (current_label st) tr, [c]).
Proof.
  intros Hag. split; simpl.
  - by apply close_group_agrees.
  - intros _ _. apply is_minimum_singleton.
Qed.

Lemma transition_agrees (label : string) (s e : Z) (c : Q) (st st' : locals)
    (tr : trace) :
  trace_agrees st tr ->
  transition label s e c st = Ok st' ->
  trace_agrees st' (trace_transition label c (current_label st) tr).
Proof.
  intros Hag Htr. unfold transition in Htr. unfold trace_transition.
  destruct (String.eqb label "O").
  - destruct (current_label st) as [lab |] eqn:Hcur; injection Htr as <-.
    + split; simpl; [| discriminate].
      pose proof (close_group_agrees st tr Hag) as H.
      by rewrite Hcur in H.
    + destruct Hag as [Hclosed _]. split; simpl; [exact Hclosed |].
      intros lab Hlab. congruence.
  - unfold unpack_split in Htr.
    destruct (split_dash label) as [p [X |]]; simpl in Htr; [| discriminate].
    destruct (String.eqb p "B").
    { injection Htr as <-. by apply open_span_agrees. }
    destruct (String.eqb p "I"); [| by injection Htr as <-].
    destruct (label_matches (current_label st) X) eqn:Hlm; injection Htr as <-.
    + apply label_matches_true in Hlm. destruct Hag as [Hclosed Hopen].
      split; simpl; [exact Hclosed |].
      intros _ _. apply is_minimum_snoc. exact (Hopen X Hlm).
    + by apply open_span_agrees.
Qed.

Lemma run_traced_agrees (logits : option (list (list Q)))
    (toks : list ((Z * Z) * Z)) (idx : nat) (st st' : locals)
    (tr tr' : trace) :
  trace_agrees st tr ->
  run_traced ID2LABEL softmax logits idx toks (st, tr) = Ok (st', tr') ->
  trace_agrees st' tr'.
Proof.
  revert idx st tr.
  induction toks as [| [[s e] lid] toks IH]; intros idx st tr Hag Hrun.
  - by injection Hrun as <- <-.
  - simpl in Hrun. apply bind_Ok_inv in Hrun as ([st1 tr1] & Hstep & Hrun).
    eapply IH; [| exact Hrun].
    unfold step_traced in Hstep.
    apply bind_Ok_inv in Hstep as (st2 & Hst & Hstep). simpl in Hstep.
    unfold step in Hst.
    destruct (is_marker (s, e)) eqn:Hm.
    + injection Hst as <-. by injection Hstep as <- <-.
    + apply bind_Ok_inv in Hstep as (c & Hc & [= <- <-]).
      rewrite Hc in Hst. simpl in Hst.
      by apply transition_agrees with s e.
Qed.

End TraceFacts.

(** C5. Every span that the decoder returns reports the minimum of
    the confidences of its constituent tokens, the token that opened it
    and the matching [I] tokens that extended it: the reported value
    is one of them and is below or equal to each of them. *)
Theorem span_confidence_is_minimum (ID2LABEL : gmap Z string)
    (softmax : list Q -> list Q) (text : string) (offsets : list (Z * Z))
    (label_ids : list Z) (logits : option (list (list Q)))
    (confidence_threshold : Q) (out : list span) :
  bio_to_spans ID2LABEL softmax text offsets label_ids logits
    confidence_threshold = Ok out ->
  exists groups,
    constituents ID2LABEL softmax offsets label_ids logits = Ok groups
    /\ Forall2 (fun sp cs => In (span_confidence sp) cs
                  /\ forall c, In c cs -> (span_confidence sp <= c)%Q)
         out groups.
Proof.
  intros Hout. unfold bio_to_spans in Hout.
  apply bind_Ok_inv in Hout as (st & Hrun & [= <-]).
  assert (Hinit : trace_agrees init empty_trace).
  { split; [constructor | intros lab Hlab; discriminate Hlab]. }
  pose proof (run_traced_erase ID2LABEL softmax logits (zip offsets label_ids)
                0 init empty_trace) as Her.
  rewrite Hrun in Her. destruct Her as [tr Htr].
  exists (close_group (current_label st) tr). split.
  - unfold constituents. rewrite Htr. reflexivity.
  - apply close_group_agrees.
    apply (run_traced_agrees ID2LABEL softmax logits _ _ _ _ _ _ Hinit Htr).
Qed.

Lemma span_confidence_is_minimum_witness :
  let offsets := [(0, 0); (0, 4); (5, 9); (10, 14); (0, 0)] in
  let logits := Some [Sample.row_for 0 1; Sample.row_for 1 0.9;
                      Sample.row_for 2 0.8; Sample.row_for 2 0.95;
                      Sample.row_for 0 1] in
  let out := [(0, 14, "PERSON_NAME"%string, 0.8%Q)] in
  bio_to_spans Sample.ID2LABEL Sample.softmax Sample.text offsets [0; 1; 2; 2; 0] logits
    0.5 = Ok out /\
  exists groups,
    constituents Sample.ID2LABEL Sample.softmax offsets [0; 1; 2; 2; 0] logits
      = Ok groups
    /\ Forall2 (fun sp cs => In (span_confidence sp) cs
                  /\ forall c, In c cs -> (span_confidence sp <= c)%Q)
         out groups.
Proof.
  intros offsets logits out. split; [reflexivity |].
  apply (span_confidence_is_minimum Sample.ID2LABEL Sample.softmax Sample.text
           offsets [0; 1; 2; 2; 0] logits 0.5 out).
  reflexivity.
Defined.

(** Min-confidence aggregation: tokens of confidence 0.9, 0.8 and 0.95
    form one group and the span reports 0.8. *)
Example min_confidence_aggregation :
  let offsets := [(0, 4); (5, 9); (10, 14)] in
  let logits := Some [Sample.row_for 1 0.9; Sample.row_for 2 0.8;
                      Sample.row_for 2 0.95] in
  constituents Sample.ID2LABEL Sample.softmax offsets [1; 2; 2] logits
    = Ok [[0.9; 0.8; 0.95]%Q]
  /\ bio_to_spans Sample.ID2LABEL Sample.softmax Sample.text offsets [1; 2; 2] logits 0.5
    = Ok [(0, 14, "PERSON_NAME"%string, 0.8%Q)].
Proof. split; reflexivity. Qed.

(** The groups partition the [B]/[I] tokens: read in order they are
    the confidences of exactly those tokens, so every such token
    belongs to one span and a span has no other constituent. *)
Section GroupFacts.

Variable ID2LABEL : gmap Z string.
Variable softmax : list Q -> list Q.

Lemma concat_close_group (cur : option string) (tr : trace) :
  (cur = None -> tr.2 = []) ->
  concat (close_group cur tr) = concat tr.1 ++ tr.2.
Proof.
  intros Hnone. unfold close_group. destruct cur.
  - rewrite concat_app. simpl. by rewrite app_nil_r.
  - rewrite Hnone by reflexivity. by rewrite app_nil_r.
Qed.

Lemma transition_groups (label : string) (s e : Z) (c : Q)
    (st st' : locals) (tr : trace) :
  (current_label st = None -> tr.2 = []) ->
  transition label s e c st = Ok st' ->
  let tr' := trace_transition label c (current_label st) tr in
  concat tr'.1 ++ tr'.2
    = (concat tr.1 ++ tr.2) ++ (if contributes label then [c] else [])
  /\ (current_label st' = None -> tr'.2 = []).
Proof.
  intros Hnone Htr. unfold transition in Htr.
  unfold trace_transition, contributes.
  destruct (String.eqb label "O"); simpl.
  - rewrite concat_close_group by exact Hnone.
    by rewrite !app_nil_r.
  - unfold unpack_split in Htr.
    destruct (split_dash label) as [p [X |]]; simpl in Htr; [| discriminate].
    destruct (String.eqb p "B"); simpl.
    { injection Htr as <-. simpl.
      rewrite concat_close_group by exact Hnone. split; [reflexivity |].
      discriminate. }
    destruct (String.eqb p "I"); simpl.
    + destruct (label_matches (current_label st) X) eqn:Hlm;
        injection Htr as <-; simpl.
      * apply label_matches_true in Hlm. rewrite Hlm.
        split; [by rewrite !app_assoc | discriminate].
      * rewrite concat_close_group by exact Hnone.
        split; [reflexivity | discriminate].
    + injection Htr as <-. by rewrite !app_nil_r.
Qed.

Lemma run_traced_groups (logits : option (list (list Q)))
    (toks : list ((Z * Z) * Z)) (idx : nat) (st st' : locals)
    (tr tr' : trace) :
  (current_label st = None -> tr.2 = []) ->
  run_traced ID2LABEL softmax logits idx toks (st, tr) = Ok (st', tr') ->
  concat tr'.1 ++ tr'.2
    = (concat tr.1 ++ tr.2) ++ entity_confidences ID2LABEL softmax logits idx toks
  /\ (current_label st' = None -> tr'.2 = []).
Proof.
  revert idx st tr.
  induction toks as [| [[s e] lid] toks IH]; intros idx st tr Hnone Hrun.
  - injection Hrun as <- <-. by rewrite app_nil_r.
  - simpl in Hrun. apply bind_Ok_inv in Hrun as ([st1 tr1] & Hstep & Hrun).
    unfold step_traced in Hstep.
    apply bind_Ok_inv in Hstep as (st2 & Hst & Hstep). simpl in Hstep.
    unfold step in Hst. simpl.
    destruct (is_marker (s, e)) eqn:Hm.
    + injection Hst as <-. injection Hstep as <- <-.
      simpl. exact (IH _ _ _ Hnone Hrun).
    + apply bind_Ok_inv in Hstep as (c & Hc & [= <- <-]).
      rewrite Hc in Hst |- *. simpl in Hst.
      destruct (transition_groups _ _ _ _ _ _ tr Hnone Hst) as [Hcat Hnone'].
      destruct (IH _ _ _ Hnone' Hrun) as [Hcat' Hfin].
      split; [| exact Hfin].
      rewrite Hcat', Hcat. by rewrite <- !app_assoc.
Qed.

Lemma constituents_partition (offsets : list (Z * Z)) (label_ids : list Z)
    (logits : option (list (list Q))) (groups : list (list Q)) :
  constituents ID2LABEL softmax offsets label_ids logits = Ok groups ->
  concat groups
  = entity_confidences ID2LABEL softmax logits 0 (zip offsets label_ids).
Proof.
  intros Hc. unfold constituents in Hc.
  apply bind_Ok_inv in Hc as ([st tr] & Hrun & [= <-]). simpl.
  destruct (run_traced_groups logits _ 0%nat init st empty_trace tr
              (fun _ => eq_refl) Hrun) as [Hcat Hnone].
  rewrite concat_close_group by exact Hnone. exact Hcat.
Qed.

End GroupFacts.

(** ** The values of the locals before the first span *)

Section InitFacts.

Variable ID2LABEL : gmap Z string.
Variable softmax : list Q -> list Q.

Lemma transition_closed_alike (label : string) (s e : Z) (c : Q)
    (st1 st2 : locals) :
  closed_alike st1 st2 ->
  match transition label s e c st1, transition label s e c st2 with
  | Ok st1', Ok st2' => st1' = st2' \/ closed_alike st1' st2'
  | Raise e1, Raise e2 => e1 = e2
  | _, _ => False
  end.
Proof.
  intros (Hsp & H1 & H2). unfold transition, append_open.
  rewrite H1, H2, Hsp.
  destruct (String.eqb label "O").
  - right. by repeat split.
  - unfold unpack_split. destruct (split_dash label) as [p [X |]]; simpl;
      [| reflexivity].
    destruct (String.eqb p "B"); [by left |].
    destruct (String.eqb p "I"); [by left |].
    right. by repeat split.
Qed.

Lemma run_closed_alike (logits : option (list (list Q)))
    (toks : list ((Z * Z) * Z)) (idx : nat) (st1 st2 : locals) :
  st1 = st2 \/ closed_alike st1 st2 ->
  (st ← run ID2LABEL softmax logits idx toks st1; Ok (append_open st))
  = (st ← run ID2LABEL softmax logits idx toks st2; Ok (append_open st)).
Proof.
  revert idx st1 st2.
  induction toks as [| [[s e] lid] toks IH]; intros idx st1 st2 [-> | Hal];
    try reflexivity.
  - simpl. destruct Hal as (Hsp & H1 & H2). unfold append_open.
    by rewrite H1, H2, Hsp.
  - simpl. destruct (is_marker (s, e)); simpl.
    + apply IH. by right.
    + destruct (confidence_at softmax logits idx lid) as [c | ex]; simpl;
        [| reflexivity].
      pose proof (transition_closed_alike (label_of ID2LABEL lid) s e c
                    st1 st2 Hal) as Htr.
      destruct (transition _ s e c st1) as [st1' | e1],
               (transition _ s e c st2) as [st2' | e2]; simpl;
        try contradiction.
      * by apply IH.
      * by subst.
Qed.

(** The result does not depend on what [current_start], [current_end]
    and [current_confidence] hold before the first span opens. *)
Lemma run_init_irrelevant (logits : option (list (list Q)))
    (toks : list ((Z * Z) * Z)) (s e : Z) (c : Q) :
  (st ← run ID2LABEL softmax logits 0 toks
          {| spans := []; current_label := None; current_start := s;
             current_end := e; current_confidence := c |};
   Ok (append_open st))
  = (st ← run ID2LABEL softmax logits 0 toks init; Ok (append_open st)).
Proof. apply run_closed_alike. right. by repeat split. Qed.

End InitFacts.

(** * Further properties of the decoder *)

Section DecoderMore.

Variable ID2LABEL : gmap Z string.
Variable softmax : list Q -> list Q.

Lemma logits_cover_tail (logits : option (list (list Q))) (idx : nat)
    (tok : (Z * Z) * Z) (toks : list ((Z * Z) * Z)) :
  logits_cover softmax logits idx (tok :: toks) ->
  logits_cover softmax logits (S idx) toks.
Proof.
  intros Hcov rows Hr k off l Hk Hoff.
  destruct (Hcov rows Hr (S k) off l Hk Hoff) as (row & Hrow & Hin).
  exists row. split; [| exact Hin].
  by replace (S idx + k)%nat with (idx + S k)%nat by lia.
Qed.

Lemma confidence_at_covered (logits : option (list (list Q))) (idx : nat)
    (s e lid : Z) (toks : list ((Z * Z) * Z)) :
  logits_cover softmax logits idx (((s, e), lid) :: toks) ->
  is_marker (s, e) = false ->
  exists c, confidence_at softmax logits idx lid = Ok c.
Proof.
  intros Hcov Hm. destruct logits as [rows |]; simpl; [| eauto].
  destruct (Hcov rows eq_refl 0%nat (s, e) lid eq_refl Hm) as (row & Hrow & Hin).
  rewrite Nat.add_0_r in Hrow. unfold getitem_nat at 1.
  rewrite Hrow. simpl. by apply getitem_in_range.
Qed.

Lemma logits_cover_None (idx : nat) (toks : list ((Z * Z) * Z)) :
  logits_cover softmax None idx toks.
Proof. intros rows Hr. discriminate Hr. Qed.

(** Without a score array the confidence is 1 and nothing is indexed. *)
Lemma step_None (idx : nat) (s e lid : Z) (st : locals) :
  step ID2LABEL softmax None idx ((s, e), lid) st
  = if is_marker (s, e) then Ok st
    else transition (label_of ID2LABEL lid) s e 1 st.
Proof. unfold step. by destruct (is_marker (s, e)). Qed.

Lemma run_None_idx (toks : list ((Z * Z) * Z)) (idx idx' : nat) (st : locals) :
  run ID2LABEL softmax None idx toks st = run ID2LABEL softmax None idx' toks st.
Proof.
  revert idx idx' st. induction toks as [| [[s e] lid] toks IH]; intros idx idx' st.
  - reflexivity.
  - change (run ID2LABEL softmax None idx (((s, e), lid) :: toks) st)
      with (st1 ← step ID2LABEL softmax None idx ((s, e), lid) st;
            run ID2LABEL softmax None (S idx) toks st1).
    change (run ID2LABEL softmax None idx' (((s, e), lid) :: toks) st)
      with (st1 ← step ID2LABEL softmax None idx' ((s, e), lid) st;
            run ID2LABEL softmax None (S idx') toks st1).
    rewrite !step_None.
    destruct (if is_marker (s, e) then Ok st
              else transition (label_of ID2LABEL lid) s e 1 st) as [st1 | ex];
      [| reflexivity].
    rewrite !bind_Ok. apply IH.
Qed.

Lemma transition_raises_only_ValueError (label : string) (s e : Z) (c : Q)
    (st : locals) (ex : exn) :
  transition label s e c st = Raise ex -> ex = ValueError.
Proof.
  unfold transition. destruct (String.eqb label "O").
  - destruct (current_label st); discriminate.
  - unfold unpack_split. destruct (split_dash label) as [p [r |]]; simpl.
    + destruct (String.eqb p "B"); [discriminate |].
      destruct (String.eqb p "I"); [| discriminate].
      destruct (label_matches _ _); discriminate.
    + by intros [= <-].
Qed.

Lemma run_None_raises_only_ValueError (toks : list ((Z * Z) * Z)) (idx : nat)
    (st : locals) (ex : exn) :
  run ID2LABEL softmax None idx toks st = Raise ex -> ex = ValueError.
Proof.
  revert idx st. induction toks as [| [[s e] lid] toks IH]; intros idx st.
  - discriminate.
  - change (run ID2LABEL softmax None idx (((s, e), lid) :: toks) st)
      with (st1 ← step ID2LABEL softmax None idx ((s, e), lid) st;
            run ID2LABEL softmax None (S idx) toks st1).
    rewrite step_None.
    destruct (is_marker (s, e)).
    + rewrite bind_Ok. apply IH.
    + destruct (transition _ s e 1 st) as [st1 | ex'] eqn:Htr.
      * rewrite bind_Ok. apply IH.
      * rewrite bind_Raise. intros [= <-].
        by apply transition_raises_only_ValueError in Htr.
Qed.

(** On an [O] label with no span open nothing happens. *)
Lemma transition_outside_idle (s e : Z) (c : Q) (st : locals) :
  current_label st = None -> transition "O" s e c st = Ok st.
Proof. intros H. unfold transition. simpl. by rewrite H. Qed.

Lemma run_all_outside (logits : option (list (list Q)))
    (toks : list ((Z * Z) * Z)) (idx : nat) (st : locals) :
  Forall (fun tok => label_of ID2LABEL tok.2 = "O"%string) toks ->
  logits_cover softmax logits idx toks ->
  current_label st = None ->
  run ID2LABEL softmax logits idx toks st = Ok st.
Proof.
  intros Hall. revert idx.
  induction Hall as [| [[s e] lid] toks Hlab _ IH]; intros idx Hcov Hidle.
  - reflexivity.
  - simpl in Hlab. simpl. destruct (is_marker (s, e)) eqn:Hm; simpl.
    + apply IH; [by eapply logits_cover_tail | exact Hidle].
    + destruct (confidence_at_covered _ _ _ _ _ _ Hcov Hm) as [c ->]. simpl.
      rewrite Hlab, (transition_outside_idle _ _ _ _ Hidle). simpl.
      apply IH; [by eapply logits_cover_tail | exact Hidle].
Qed.

Lemma transition_dashed_ok (label : string) (s e : Z) (c : Q) (st : locals) :
  label = "O"%string \/ (split_dash label).2 <> None ->
  exists st', transition label s e c st = Ok st'.
Proof.
  intros Hl. unfold transition.
  destruct (String.eqb label "O") eqn:HO.
  - destruct (current_label st); eauto.
  - destruct Hl as [-> | Hd]; [discriminate HO |].
    unfold unpack_split. destruct (split_dash label) as [p [r |]]; simpl in *;
      [| congruence].
    destruct (String.eqb p "B"); [eauto |].
    destruct (String.eqb p "I"); [| eauto].
    destruct (label_matches _ _); eauto.
Qed.

Lemma label_of_dashed (lid : Z) :
  dashed_registry ID2LABEL ->
  label_of ID2LABEL lid = "O"%string
  \/ (split_dash (label_of ID2LABEL lid)).2 <> None.
Proof.
  intros Hreg. unfold label_of.
  destruct (ID2LABEL !! lid) as [l |] eqn:Hl; simpl; [by eapply Hreg | by left].
Qed.

Lemma run_dashed_ok (logits : option (list (list Q)))
    (toks : list ((Z * Z) * Z)) (idx : nat) (st : locals) :
  dashed_registry ID2LABEL ->
  logits_cover softmax logits idx toks ->
  exists st', run ID2LABEL softmax logits idx toks st = Ok st'.
Proof.
  intros Hreg. revert idx st.
  induction toks as [| [[s e] lid] toks IH]; intros idx st Hcov.
  - simpl. eauto.
  - simpl. destruct (is_marker (s, e)) eqn:Hm; simpl.
    + apply IH. by eapply logits_cover_tail.
    + destruct (confidence_at_covered _ _ _ _ _ _ Hcov Hm) as [c ->]. simpl.
      destruct (transition_dashed_ok _ s e c st (label_of_dashed lid Hreg))
        as [st1 ->]. simpl.
      apply IH. by eapply logits_cover_tail.
Qed.

End DecoderMore.

(** X1. A stream in which every label id is unknown to the registry or
    maps to [O] decodes to the empty span list (the score array, when
    supplied, having the rows that are read). *)
Theorem all_outside_yields_no_span (ID2LABEL : gmap Z string)
    (softmax : list Q -> list Q) (text : string) (offsets : list (Z * Z))
    (label_ids : list Z) (logits : option (list (list Q)))
    (confidence_threshold : Q) :
  Forall (fun lid => ID2LABEL !! lid = None \/ ID2LABEL !! lid = Some "O"%string)
    label_ids ->
  logits_cover softmax logits 0 (zip offsets label_ids) ->
  bio_to_spans ID2LABEL softmax text offsets label_ids logits
    confidence_threshold = Ok [].
Proof.
  intros Hall Hcov. unfold bio_to_spans.
  rewrite (run_all_outside ID2LABEL softmax logits _ 0 init); [reflexivity | | exact Hcov | reflexivity].
  apply Forall_forall. intros [off lid] Hin. simpl.
  apply elem_of_zip_r in Hin.
  rewrite Forall_forall in Hall.
  unfold label_of.
  destruct (Hall lid Hin) as [-> | ->]; reflexivity.
Qed.

Lemma all_outside_yields_no_span_witness :
  (Forall (fun lid => Sample.ID2LABEL !! lid = None
                      \/ Sample.ID2LABEL !! lid = Some "O"%string) [0; 77; -3]
   /\ logits_cover Sample.softmax None 0 (zip [(0, 0); (0, 4); (5, 9)] [0; 77; -3]))
  /\ bio_to_spans Sample.ID2LABEL Sample.softmax Sample.text
       [(0, 0); (0, 4); (5, 9)] [0; 77; -3] None 0.1 = Ok [].
Proof.
  assert (Hall : Forall (fun lid => Sample.ID2LABEL !! lid = None
                      \/ Sample.ID2LABEL !! lid = Some "O"%string) [0; 77; -3]).
  { constructor; [right; reflexivity |].
    constructor; [left; reflexivity |].
    constructor; [left; reflexivity | constructor]. }
  assert (Hcov : logits_cover Sample.softmax None 0
                   (zip [(0, 0); (0, 4); (5, 9)] [0; 77; -3])).
  { intros rows Hr. discriminate Hr. }
  split; [split; assumption |].
  exact (all_outside_yields_no_span Sample.ID2LABEL Sample.softmax Sample.text
           [(0, 0); (0, 4); (5, 9)] [0; 77; -3] None 0.1 Hall Hcov).
Defined.

(** X2. With a registry whose labels are all [O] or contain a dash, and
    a score array that has the rows that are read (or none), decoding
    raises no exception: it returns a span list. *)
Theorem dashed_registry_decodes (ID2LABEL : gmap Z string)
    (softmax : list Q -> list Q) (text : string) (offsets : list (Z * Z))
    (label_ids : list Z) (logits : option (list (list Q)))
    (confidence_threshold : Q) :
  dashed_registry ID2LABEL ->
  logits_cover softmax logits 0 (zip offsets label_ids) ->
  exists out,
    bio_to_spans ID2LABEL softmax text offsets label_ids logits
      confidence_threshold = Ok out.
Proof.
  intros Hreg Hcov. unfold bio_to_spans.
  destruct (run_dashed_ok ID2LABEL softmax logits _ 0 init Hreg Hcov) as [st ->].
  simpl. eauto.
Qed.

Lemma sample_bio_dashed : dashed_registry Sample.BIO.
Proof.
  intros lid l Hl. apply elem_of_list_to_map_2 in Hl.
  repeat (apply elem_of_cons in Hl as [[= -> ->] | Hl];
          [first [by left | right; discriminate] |]).
  by apply elem_of_nil in Hl.
Qed.

Lemma dashed_registry_decodes_witness :
  (dashed_registry Sample.BIO
   /\ logits_cover Sample.softmax None 0 (zip [(0, 4); (5, 9)] [3; 4]))
  /\ exists out,
       bio_to_spans Sample.BIO Sample.softmax Sample.text [(0, 4); (5, 9)]
         [3; 4] None 0.1 = Ok out.
Proof.
  assert (Hcov : logits_cover Sample.softmax None 0 (zip [(0, 4); (5, 9)] [3; 4])).
  { intros rows Hr. discriminate Hr. }
  split; [split; [exact sample_bio_dashed | exact Hcov] |].
  exact (dashed_registry_decodes Sample.BIO Sample.softmax Sample.text
           [(0, 4); (5, 9)] [3; 4] None 0.1 sample_bio_dashed Hcov).
Defined.

(** X3. Without a score array, one non-marker token whose label string
    is not [O] and has no dash makes the whole decoding raise
    [ValueError], wherever the token stands and whatever the other
    tokens are. *)
Theorem dashless_label_fails_utterance (ID2LABEL : gmap Z string)
    (softmax : list Q -> list Q) (text : string) (offsets : list (Z * Z))
    (label_ids : list Z) (confidence_threshold : Q)
    (i : nat) (off : Z * Z) (lid : Z) :
  offsets !! i = Some off -> label_ids !! i = Some lid ->
  is_marker off = false ->
  label_of ID2LABEL lid <> "O"%string ->
  (split_dash (label_of ID2LABEL lid)).2 = None ->
  bio_to_spans ID2LABEL softmax text offsets label_ids None
    confidence_threshold = Raise ValueError.
Proof.
  intros Hoff Hlid Hm HO Hdash.
  assert (Htok : zip offsets label_ids !! i = Some (off, lid)).
  { apply lookup_zip_with_Some. eauto. }
  unfold bio_to_spans.
  rewrite <- (take_drop_middle _ _ _ Htok), run_app.
  destruct (run ID2LABEL softmax None 0 (take i (zip offsets label_ids)) init)
    as [st1 | ex] eqn:Hpre.
  - rewrite bind_Ok.
    change (run ID2LABEL softmax None (0 + length (take i (zip offsets label_ids)))
              ((off, lid) :: drop (S i) (zip offsets label_ids)) st1)
      with (st2 ← step ID2LABEL softmax None
                    (0 + length (take i (zip offsets label_ids))) (off, lid) st1;
            run ID2LABEL softmax None
                (S (0 + length (take i (zip offsets label_ids))))
                (drop (S i) (zip offsets label_ids)) st2).
    destruct off as [s e]. rewrite step_None, Hm.
    unfold transition, unpack_split.
    apply String.eqb_neq in HO. rewrite HO.
    destruct (split_dash (label_of ID2LABEL lid)) as [p [r |]];
      [discriminate Hdash | reflexivity].
  - apply run_None_raises_only_ValueError in Hpre. subst ex. reflexivity.
Qed.

Lemma dashless_label_fails_utterance_witness :
  ([(0, 4); (5, 9); (10, 14)] !! 1%nat = Some (5, 9)
   /\ [1; 9; 2] !! 1%nat = Some 9
   /\ is_marker (5, 9) = false
   /\ label_of Sample.ID2LABEL 9 <> "O"%string
   /\ (split_dash (label_of Sample.ID2LABEL 9)).2 = None)
  /\ bio_to_spans Sample.ID2LABEL Sample.softmax Sample.text
       [(0, 4); (5, 9); (10, 14)] [1; 9; 2] None 0.1 = Raise ValueError.
Proof.
  split.
  { split; [reflexivity |]. split; [reflexivity |]. split; [reflexivity |].
    split; [discriminate | reflexivity]. }
  apply (dashless_label_fails_utterance Sample.ID2LABEL Sample.softmax
           Sample.text [(0, 4); (5, 9); (10, 14)] [1; 9; 2] 0.1 1%nat (5, 9) 9);
    [reflexivity | reflexivity | reflexivity | discriminate | reflexivity].
Defined.

Section DecoderTokens.

Variable ID2LABEL : gmap Z string.
Variable softmax : list Q -> list Q.

Lemma span_from_tokens_app (done more : list ((Z * Z) * Z)) (sp : span) :
  span_from_tokens ID2LABEL done sp ->
  span_from_tokens ID2LABEL (done ++ more) sp.
Proof.
  intros (i & j & ti & tj & Hij & Hi & Hj & Hrest).
  exists i, j, ti, tj. split; [exact Hij |].
  split; [by apply lookup_app_l_Some |].
  split; [by apply lookup_app_l_Some | exact Hrest].
Qed.

Lemma unpack_split_Ok (label p X : string) :
  unpack_split label = Ok (p, X) -> split_dash label = (p, Some X).
Proof.
  unfold unpack_split. destruct (split_dash label) as [p' [r |]]; [| discriminate].
  by intros [= -> ->].
Qed.

Lemma in_append_open_spans (st : locals) (sp : span) :
  In sp (spans st) -> In sp (append_open st).
Proof.
  unfold append_open. destruct (current_label st); [| done].
  intros H. apply in_or_app. by left.
Qed.

(** A token that opens a span accounts for it. *)
Lemma opened_span_from_token (done : list ((Z * Z) * Z)) (s e lid : Z)
    (p X : string) (c : Q) :
  is_marker (s, e) = false ->
  split_dash (label_of ID2LABEL lid) = (p, Some X) ->
  p = "B"%string \/ p = "I"%string ->
  span_from_tokens ID2LABEL (done ++ [((s, e), lid)]) (s, e, X, c).
Proof.
  intros Hm Hsplit Hp.
  assert (Htok : entity_token ID2LABEL X ((s, e), lid)).
  { split; [exact Hm | exists p; by split]. }
  exists (length done), (length done), ((s, e), lid), ((s, e), lid).
  split; [lia |].
  split; [by apply list_lookup_middle |].
  split; [by apply list_lookup_middle |].
  split; [exact Htok |]. split; [exact Htok |]. split; reflexivity.
Qed.

Lemma transition_provenance (done : list ((Z * Z) * Z)) (s e lid : Z) (c : Q)
    (st st' : locals) :
  is_marker (s, e) = false ->
  (forall sp, In sp (append_open st) -> span_from_tokens ID2LABEL done sp) ->
  transition (label_of ID2LABEL lid) s e c st = Ok st' ->
  forall sp, In sp (append_open st') ->
    span_from_tokens ID2LABEL (done ++ [((s, e), lid)]) sp.
Proof.
  intros Hm Hinv Htr.
  assert (Hold : forall sp, In sp (append_open st) ->
            span_from_tokens ID2LABEL (done ++ [((s, e), lid)]) sp).
  { intros sp Hin. by apply span_from_tokens_app, Hinv. }
  unfold transition in Htr.
  destruct (String.eqb (label_of ID2LABEL lid) "O").
  - destruct (current_label st) eqn:Hcur; injection Htr as <-; [| exact Hold].
    unfold append_open at 1. simpl. exact Hold.
  - apply bind_Ok_inv in Htr as ([p X] & Hsplit & Htr).
    apply unpack_split_Ok in Hsplit.
    destruct (String.eqb p "B") eqn:HB.
    { injection Htr as <-. unfold append_open at 1. simpl.
      intros sp Hin. apply in_app_or in Hin as [Hin | [<- | []]]; [auto |].
      apply String.eqb_eq in HB. eapply opened_span_from_token; eauto. }
    destruct (String.eqb p "I") eqn:HI; [| injection Htr as <-; exact Hold].
    apply String.eqb_eq in HI.
    destruct (label_matches (current_label st) X) eqn:Hlm; injection Htr as <-.
    + apply label_matches_true in Hlm.
      unfold append_open at 1. simpl. rewrite Hlm.
      intros sp Hin. apply in_app_or in Hin as [Hin | [<- | []]].
      * apply Hold. by apply in_append_open_spans.
      * assert (Hopen : In (current_start st, current_end st, X,
                            current_confidence st) (append_open st)).
        { unfold append_open. rewrite Hlm. apply in_or_app. right. by left. }
        destruct (Hinv _ Hopen) as (i & j & ti & tj & Hij & Hi & Hj & Hti & Htj & Hs & He).
        exists i, (length done), ti, ((s, e), lid).
        split; [apply lookup_lt_Some in Hi; lia |].
        split; [by apply lookup_app_l_Some |].
        split; [by apply list_lookup_middle |].
        split; [exact Hti |]. split; [| by split].
        split; [exact Hm | exists p; split; [exact Hsplit | by right]].
    + unfold append_open at 1. simpl.
      intros sp Hin. apply in_app_or in Hin as [Hin | [<- | []]]; [auto |].
      eapply opened_span_from_token; eauto.
Qed.

Lemma run_provenance (logits : option (list (list Q)))
    (rest done : list ((Z * Z) * Z)) (idx : nat) (st st' : locals) :
  (forall sp, In sp (append_open st) -> span_from_tokens ID2LABEL done sp) ->
  run ID2LABEL softmax logits idx rest st = Ok st' ->
  forall sp, In sp (append_open st') ->
    span_from_tokens ID2LABEL (done ++ rest) sp.
Proof.
  revert done idx st.
  induction rest as [| [[s e] lid] rest IH]; intros done idx st Hinv Hrun.
  - injection Hrun as <-. by rewrite app_nil_r.
  - simpl in Hrun. apply bind_Ok_inv in Hrun as (st1 & Hstep & Hrun).
    replace (done ++ ((s, e), lid) :: rest)
      with ((done ++ [((s, e), lid)]) ++ rest) by (by rewrite <- app_assoc).
    eapply IH; [| exact Hrun].
    destruct (is_marker (s, e)) eqn:Hm.
    + injection Hstep as <-. intros sp Hin. by apply span_from_tokens_app, Hinv.
    + apply bind_Ok_inv in Hstep as (c & _ & Htr).
      by eapply transition_provenance.
Qed.

(** The number of spans, counting the open one, grows by one at a [B]
    token and at most by one at any [B]/[I] token, and not otherwise. *)
Lemma transition_count (label : string) (s e : Z) (c : Q) (st st' : locals) :
  transition label s e c st = Ok st' ->
  (length (append_open st) + (if is_begin label then 1 else 0)
     <= length (append_open st'))%nat
  /\ (length (append_open st')
     <= length (append_open st) + (if contributes label then 1 else 0))%nat.
Proof.
  intros Htr. unfold transition in Htr. unfold is_begin, contributes.
  destruct (String.eqb label "O") eqn:HO.
  - apply String.eqb_eq in HO. subst label. simpl.
    destruct (current_label st) eqn:Hcur; injection Htr as <-;
      unfold append_open; simpl; rewrite ?Hcur; lia.
  - apply bind_Ok_inv in Htr as ([p X] & Hsplit & Htr).
    apply unpack_split_Ok in Hsplit. rewrite Hsplit. simpl.
    destruct (String.eqb p "B") eqn:HB; simpl.
    { injection Htr as <-. unfold append_open at 2 4. simpl.
      rewrite length_app. simpl. lia. }
    destruct (String.eqb p "I") eqn:HI; simpl.
    + destruct (label_matches (current_label st) X) eqn:Hlm; injection Htr as <-.
      * apply label_matches_true in Hlm.
        unfold append_open. simpl. rewrite Hlm, !length_app. simpl. lia.
      * unfold append_open at 2 4. simpl. rewrite length_app. simpl. lia.
    + injection Htr as <-. lia.
Qed.

Lemma run_count (logits : option (list (list Q))) (toks : list ((Z * Z) * Z))
    (idx : nat) (st st' : locals) :
  run ID2LABEL softmax logits idx toks st = Ok st' ->
  (length (append_open st) + count_labels is_begin ID2LABEL toks
     <= length (append_open st'))%nat
  /\ (length (append_open st')
     <= length (append_open st) + count_labels contributes ID2LABEL toks)%nat.
Proof.
  revert idx st. induction toks as [| [[s e] lid] toks IH]; intros idx st Hrun.
  - injection Hrun as <-. unfold count_labels. simpl. lia.
  - simpl in Hrun. apply bind_Ok_inv in Hrun as (st1 & Hstep & Hrun).
    specialize (IH _ _ Hrun). unfold count_labels in *. simpl.
    destruct (is_marker (s, e)) eqn:Hm; simpl.
    + injection Hstep as <-. exact IH.
    + apply bind_Ok_inv in Hstep as (c & _ & Htr).
      apply transition_count in Htr.
      destruct (is_begin (label_of ID2LABEL lid)),
               (contributes (label_of ID2LABEL lid)); simpl; lia.
Qed.

Lemma run_None_live (toks : list ((Z * Z) * Z)) (idx : nat) (st : locals) :
  run ID2LABEL softmax None idx (live_tokens toks) st
  = run ID2LABEL softmax None idx toks st.
Proof.
  revert idx st. induction toks as [| [[s e] lid] toks IH]; intros idx st.
  - reflexivity.
  - unfold live_tokens. simpl. destruct (is_marker (s, e)) eqn:Hm; simpl.
    + rewrite (run_None_idx ID2LABEL softmax toks (S idx) idx). apply IH.
    + rewrite Hm. simpl.
      destruct (transition _ s e 1 st) as [st1 | ex]; simpl; [| reflexivity].
      apply IH.
Qed.

Lemma transition_spans_prefix (label : string) (s e : Z) (c : Q)
    (st st' : locals) :
  transition label s e c st = Ok st' -> spans st `prefix_of` spans st'.
Proof.
  assert (Hap : spans st `prefix_of` append_open st).
  { unfold append_open. destruct (current_label st); [by eexists | done]. }
  intros Htr. unfold transition in Htr.
  destruct (String.eqb label "O").
  - destruct (current_label st) eqn:Hcur; by injection Htr as <-.
  - apply bind_Ok_inv in Htr as ([p X] & _ & Htr).
    destruct (String.eqb p "B"); [by injection Htr as <- |].
    destruct (String.eqb p "I"); [| by injection Htr as <-].
    destruct (label_matches _ _); by injection Htr as <-.
Qed.

Lemma run_spans_prefix (logits : option (list (list Q)))
    (toks : list ((Z * Z) * Z)) (idx : nat) (st st' : locals) :
  run ID2LABEL softmax logits idx toks st = Ok st' ->
  spans st `prefix_of` spans st'.
Proof.
  revert idx st. induction toks as [| [[s e] lid] toks IH]; intros idx st Hrun.
  - by injection Hrun as <-.
  - simpl in Hrun. apply bind_Ok_inv in Hrun as (st1 & Hstep & Hrun).
    transitivity (spans st1); [| by eapply IH].
    destruct (is_marker (s, e)); [by injection Hstep as <- |].
    apply bind_Ok_inv in Hstep as (c & _ & Htr).
    by eapply transition_spans_prefix.
Qed.

End DecoderTokens.

(** X4. Every returned span is accounted for by the tokens: it starts
    at the start offset of a non-marker [B]/[I] token of its entity
    type and ends at the end offset of the same or a later such token.
    The decoder invents no offset and no entity type. *)
Theorem spans_come_from_tokens (ID2LABEL : gmap Z string)
    (softmax : list Q -> list Q) (text : string) (offsets : list (Z * Z))
    (label_ids : list Z) (logits : option (list (list Q)))
    (confidence_threshold : Q) (out : list span) :
  bio_to_spans ID2LABEL softmax text offsets label_ids logits
    confidence_threshold = Ok out ->
  forall sp, In sp out ->
    exists (i j : nat) ti tj,
      (i <= j)%nat
      /\ zip offsets label_ids !! i = Some ti
      /\ zip offsets label_ids !! j = Some tj
      /\ entity_token ID2LABEL (span_label sp) ti
      /\ entity_token ID2LABEL (span_label sp) tj
      /\ ti.1.1 = span_start sp /\ tj.1.2 = span_end sp.
Proof.
  intros Hout sp Hin. unfold bio_to_spans in Hout.
  apply bind_Ok_inv in Hout as (st & Hrun & [= <-]).
  apply (run_provenance ID2LABEL softmax logits (zip offsets label_ids) []
           0 init st (fun sp (H : In sp (append_open init)) => match H with end)
           Hrun sp Hin).
Qed.

Lemma spans_come_from_tokens_witness :
  let out := [(0, 9, "CITY"%string, 1%Q)] in
  bio_to_spans Sample.ID2LABEL Sample.softmax Sample.text [(0, 4); (5, 9)]
    [3; 4] None 0.1 = Ok out
  /\ forall sp, In sp out ->
       exists (i j : nat) ti tj,
         (i <= j)%nat
         /\ zip [(0, 4); (5, 9)] [3; 4] !! i = Some ti
         /\ zip [(0, 4); (5, 9)] [3; 4] !! j = Some tj
         /\ entity_token Sample.ID2LABEL (span_label sp) ti
         /\ entity_token Sample.ID2LABEL (span_label sp) tj
         /\ ti.1.1 = span_start sp /\ tj.1.2 = span_end sp.
Proof.
  intros out. split; [reflexivity |].
  apply (spans_come_from_tokens Sample.ID2LABEL Sample.softmax Sample.text
           [(0, 4); (5, 9)] [3; 4] None 0.1 out).
  reflexivity.
Defined.

(** X5. The number of returned spans lies between the number of
    non-marker [B] tokens and the number of non-marker [B]/[I] tokens:
    every [B] token gets a span of its own, and no span appears without
    a [B] or [I] token. *)
Theorem span_count_bounds (ID2LABEL : gmap Z string)
    (softmax : list Q -> list Q) (text : string) (offsets : list (Z * Z))
    (label_ids : list Z) (logits : option (list (list Q)))
    (confidence_threshold : Q) (out : list span) :
  bio_to_spans ID2LABEL softmax text offsets label_ids logits
    confidence_threshold = Ok out ->
  (count_labels is_begin ID2LABEL (zip offsets label_ids) <= length out)%nat
  /\ (length out
      <= count_labels contributes ID2LABEL (zip offsets label_ids))%nat.
Proof.
  intros Hout. unfold bio_to_spans in Hout.
  apply bind_Ok_inv in Hout as (st & Hrun & [= <-]).
  apply (run_count ID2LABEL softmax) in Hrun. simpl in Hrun. exact Hrun.
Qed.

Lemma span_count_bounds_witness :
  let out := [(0, 4, "CITY"%string, 1%Q); (5, 9, "PHONE"%string, 1%Q);
              (15, 19, "EMAIL"%string, 1%Q)] in
  bio_to_spans Sample.ID2LABEL Sample.softmax Sample.text
    [(0, 4); (5, 9); (10, 14); (15, 19)] [3; 7; 0; 6] None 0.1 = Ok out
  /\ Nat.le (count_labels is_begin Sample.ID2LABEL
               (zip [(0, 4); (5, 9); (10, 14); (15, 19)] [3; 7; 0; 6]))
            (length out)
  /\ Nat.le (length out)
            (count_labels contributes Sample.ID2LABEL
               (zip [(0, 4); (5, 9); (10, 14); (15, 19)] [3; 7; 0; 6])).
Proof.
  intros out. split; [reflexivity |].
  apply (span_count_bounds Sample.ID2LABEL Sample.softmax Sample.text
           [(0, 4); (5, 9); (10, 14); (15, 19)] [3; 7; 0; 6] None 0.1 out).
  reflexivity.
Defined.

(** X6. Without a score array the structural markers are inert: taking
    them out of the two streams does not change the result. *)
Theorem markers_can_be_dropped (ID2LABEL : gmap Z string)
    (softmax : list Q -> list Q) (text : string) (offsets : list (Z * Z))
    (label_ids : list Z) (confidence_threshold : Q) :
  let live := live_tokens (zip offsets label_ids) in
  bio_to_spans ID2LABEL softmax text (live.*1) (live.*2) None
    confidence_threshold
  = bio_to_spans ID2LABEL softmax text offsets label_ids None
      confidence_threshold.
Proof.
  intros live. unfold bio_to_spans.
  rewrite zip_fst_snd. unfold live. by rewrite run_None_live.
Qed.

(** X7. A span once emitted is never changed or removed by later
    tokens: the result for the first [n] positions, less its last span
    (which may still be open there), is an initial segment of the
    result for the whole stream. *)
Theorem emitted_spans_are_final (ID2LABEL : gmap Z string)
    (softmax : list Q -> list Q) (text : string) (offsets : list (Z * Z))
    (label_ids : list Z) (logits : option (list (list Q)))
    (confidence_threshold : Q) (n : nat) (out_n out : list span) :
  bio_to_spans ID2LABEL softmax text (take n offsets) (take n label_ids) logits
    confidence_threshold = Ok out_n ->
  bio_to_spans ID2LABEL softmax text offsets label_ids logits
    confidence_threshold = Ok out ->
  removelast out_n `prefix_of` out.
Proof.
  intros Hn Hout. unfold bio_to_spans in Hn, Hout.
  apply bind_Ok_inv in Hn as (st1 & Hrun1 & [= <-]).
  apply bind_Ok_inv in Hout as (st2 & Hrun2 & [= <-]).
  change (zip (take n offsets) (take n label_ids))
    with (zip_with pair (take n offsets) (take n label_ids)) in Hrun1.
  rewrite <- zip_with_take in Hrun1.
  rewrite <- (take_drop n (zip offsets label_ids)), run_app in Hrun2.
  fold (zip offsets label_ids) in Hrun1. rewrite Hrun1 in Hrun2.
  rewrite bind_Ok in Hrun2. apply run_spans_prefix in Hrun2.
  transitivity (spans st1).
  - unfold append_open. destruct (current_label st1).
    + by rewrite removelast_last.
    + destruct (spans st1) as [| sp sps] using rev_ind; [done |].
      rewrite removelast_last. by eexists.
  - transitivity (spans st2); [exact Hrun2 |].
    unfold append_open. destruct (current_label st2); [by eexists | done].
Qed.

Lemma emitted_spans_are_final_witness :
  let out_n := [(0, 4, "CITY"%string, 1%Q); (5, 9, "PHONE"%string, 1%Q)] in
  let out := [(0, 4, "CITY"%string, 1%Q); (5, 14, "PHONE"%string, 1%Q)] in
  (bio_to_spans Sample.ID2LABEL Sample.softmax Sample.text
     (take 2 [(0, 4); (5, 9); (10, 14)]) (take 2 [3; 7; 8]) None 0.1 = Ok out_n
   /\ bio_to_spans Sample.ID2LABEL Sample.softmax Sample.text
        [(0, 4); (5, 9); (10, 14)] [3; 7; 8] None 0.1 = Ok out)
  /\ removelast out_n `prefix_of` out.
Proof.
  intros out_n out. split; [split; reflexivity |].
  apply (emitted_spans_are_final Sample.ID2LABEL Sample.softmax Sample.text
           [(0, 4); (5, 9); (10, 14)] [3; 7; 8] None 0.1 2%nat out_n out);
    reflexivity.
Defined.

(** * Further properties of the filter *)

Section FilterMore.

Variable label_is_pii : string -> bool.

Lemma keeps_antitone (t t' : Q) (sp : span) :
  (t <= t')%Q ->
  keeps label_is_pii t' sp = true -> keeps label_is_pii t sp = true.
Proof.
  intros Hle. rewrite !keeps_iff. intros [H | H]; [by left | right].
  by apply Qle_trans with t'.
Qed.

Lemma filter_keeps_sublist (t t' : Q) (sps : list span) :
  (t <= t')%Q ->
  sublist (map (to_entity label_is_pii) (List.filter (keeps label_is_pii t') sps))
          (map (to_entity label_is_pii) (List.filter (keeps label_is_pii t) sps)).
Proof.
  intros Hle. induction sps as [| sp sps IH]; simpl; [constructor |].
  destruct (keeps label_is_pii t' sp) eqn:Hk'.
  - rewrite (keeps_antitone t t' sp Hle Hk'). simpl. by constructor.
  - destruct (keeps label_is_pii t sp); simpl; [by constructor | exact IH].
Qed.

Lemma spans_chain_mono (lo lo' : Z) (sps : list span) :
  lo' <= lo -> spans_chain lo sps -> spans_chain lo' sps.
Proof.
  destruct sps as [| sp sps]; simpl; [done |].
  intros Hle (Hlo & Hse & Hrest). repeat split; [lia | exact Hse | exact Hrest].
Qed.

Lemma spans_chain_filter (f : span -> bool) (lo : Z) (sps : list span) :
  spans_chain lo sps -> spans_chain lo (List.filter f sps).
Proof.
  revert lo. induction sps as [| sp sps IH]; intros lo; simpl; [done |].
  intros (Hlo & Hse & Hrest). destruct (f sp); simpl.
  - repeat split; [exact Hlo | exact Hse | by apply IH].
  - apply IH. apply spans_chain_mono with (span_end sp); [lia | exact Hrest].
Qed.

Lemma spans_ordered_tail (sp : span) (sps : list span) :
  spans_ordered (sp :: sps) -> spans_ordered sps.
Proof.
  intros [Hne Hadj]. split.
  - intros sp' Hin. apply Hne. by right.
  - intros i a b Hi HSi. by apply (Hadj (S i)).
Qed.

Lemma spans_ordered_chain (lo : Z) (sps : list span) :
  spans_ordered sps ->
  (forall sp, head sps = Some sp -> lo <= span_start sp) ->
  spans_chain lo sps.
Proof.
  revert lo. induction sps as [| sp sps IH]; intros lo Hord Hlo; simpl; [done |].
  split; [by apply Hlo |].
  split; [apply Hord; by left |].
  apply IH; [by eapply spans_ordered_tail |].
  intros sp' Hhd. destruct sps as [| sp'' sps]; [discriminate |].
  injection Hhd as ->.
  by apply (proj2 Hord 0%nat sp sp').
Qed.

Lemma spans_chain_entities (lo : Z) (sps : list span) :
  spans_chain lo sps ->
  entities_ordered (map (to_entity label_is_pii) sps)
  /\ forall en, In en (map (to_entity label_is_pii) sps) -> lo <= ent_start en.
Proof.
  revert lo. induction sps as [| sp sps IH]; intros lo; simpl.
  - intros _. split; [split |]; [intros en [] | | intros en []].
    intros i j en en' _ Hi. discriminate Hi.
  - intros (Hlo & Hse & Hrest).
    destruct (IH _ Hrest) as [[Hne Hpair] Hlow].
    destruct sp as [[[s e] lab] c].
    unfold span_start, span_end in *. simpl in *.
    split; [split |].
    + intros en [<- | Hin]; [exact Hse | by apply Hne].
    + intros i j en en' Hij Hi Hj.
      destruct j as [| j]; [lia |]. simpl in Hj.
      destruct i as [| i]; simpl in Hi.
      * injection Hi as <-. simpl. apply Hlow.
        apply list_elem_of_In. by eapply list_elem_of_lookup_2.
      * apply (Hpair i j); [lia | exact Hi | exact Hj].
    + intros en [<- | Hin]; [exact Hlo |].
      specialize (Hlow en Hin). lia.
Qed.

End FilterMore.

(** X8. Raising the threshold only removes entities: the output for a
    larger threshold is a subsequence of the output for a smaller one. *)
Theorem filter_antitone_in_threshold (label_is_pii : string -> bool)
    (t t' : Q) (sps : list span) :
  (t <= t')%Q ->
  sublist (filter_spans label_is_pii t' sps) (filter_spans label_is_pii t sps).
Proof.
  intros Hle. unfold filter_spans. rewrite !filter_loop_acc. simpl.
  by apply filter_keeps_sublist.
Qed.

Lemma filter_antitone_in_threshold_witness :
  (0.2 <= 0.5)%Q /\
  sublist
    (filter_spans Sample.label_is_pii 0.5
       [(0, 4, "PERSON_NAME"%string, 0.3%Q); (8, 12, "CITY"%string, 0.1%Q)])
    (filter_spans Sample.label_is_pii 0.2
       [(0, 4, "PERSON_NAME"%string, 0.3%Q); (8, 12, "CITY"%string, 0.1%Q)]).
Proof.
  assert (Hle : (0.2 <= 0.5)%Q) by (unfold Qle; simpl; lia).
  split; [exact Hle |].
  exact (filter_antitone_in_threshold Sample.label_is_pii 0.2 0.5
           [(0, 4, "PERSON_NAME"%string, 0.3%Q); (8, 12, "CITY"%string, 0.1%Q)]
           Hle).
Defined.

(** X9. Decoding and filtering compose: for tokenizer-ordered offsets
    the entities written for an utterance are non-empty ranges, and any
    two of them, in output order, do not overlap. *)
Theorem predicted_entities_ordered (label_is_pii : string -> bool)
    (ID2LABEL : gmap Z string) (softmax : list Q -> list Q) (text : string)
    (offsets : list (Z * Z)) (pred_ids : list Z) (logits : list (list Q))
    (confidence_threshold : Q) (lo : Z) (ents : list entity) :
  offsets_ordered lo (take (length pred_ids) offsets) ->
  predict_utterance label_is_pii ID2LABEL softmax text offsets pred_ids logits
    confidence_threshold = Ok ents ->
  (forall en, In en ents -> ent_start en < ent_end en)
  /\ (forall (i j : nat) en en', (i < j)%nat ->
        ents !! i = Some en -> ents !! j = Some en' ->
        ent_end en <= ent_start en').
Proof.
  intros Hoff Hp. unfold predict_utterance in Hp.
  apply bind_Ok_inv in Hp as (sps & Hdec & [= <-]).
  unfold bio_to_spans in Hdec.
  apply bind_Ok_inv in Hdec as (st & Hrun & [= <-]).
  rewrite <- fst_zip_take in Hoff.
  assert (Hinit : ordered_state lo init).
  { split; [apply spans_ordered_nil | intros sp []]. }
  destruct (run_ordered _ _ _ _ _ _ _ _ Hoff Hinit Hrun) as [lo' Hst].
  destruct (ordered_state_append_open lo' st Hst) as [Hord _].
  unfold filter_spans. rewrite filter_loop_acc. simpl.
  set (sps := append_open st) in *.
  assert (Hchain : exists lo0, spans_chain lo0 sps).
  { destruct sps as [| sp0 sps0] eqn:E; [by exists 0 |].
    exists (span_start sp0). apply spans_ordered_chain; [exact Hord |].
    intros sp [= <-]. lia. }
  destruct Hchain as [lo0 Hchain].
  apply (spans_chain_filter (keeps label_is_pii confidence_threshold)) in Hchain.
  apply (spans_chain_entities label_is_pii) in Hchain as [Hent _].
  exact Hent.
Qed.

Lemma predicted_entities_ordered_witness :
  let ents := [ {| ent_start := 0; ent_end := 10; ent_label := "PERSON_NAME";
                   ent_pii := true |};
                {| ent_start := 11; ent_end := 15; ent_label := "CITY";
                   ent_pii := false |} ] in
  let logits := [Sample.row_for 0 1; Sample.row_for 1 0.9; Sample.row_for 2 0.8;
                 Sample.row_for 3 0.4; Sample.row_for 0 1] in
  (offsets_ordered 0 (take (length [0; 1; 2; 3; 0])
                        [(0, 0); (0, 4); (5, 10); (11, 15); (0, 0)])
   /\ predict_utterance Sample.label_is_pii Sample.ID2LABEL Sample.softmax
        Sample.text [(0, 0); (0, 4); (5, 10); (11, 15); (0, 0)] [0; 1; 2; 3; 0]
        logits 0.5 = Ok ents)
  /\ ((forall en, In en ents -> ent_start en < ent_end en)
      /\ (forall (i j : nat) en en', (i < j)%nat ->
            ents !! i = Some en -> ents !! j = Some en' ->
            ent_end en <= ent_start en')).
Proof.
  intros ents logits.
  assert (Hoff : offsets_ordered 0
            (take (length [0; 1; 2; 3; 0])
               [(0, 0); (0, 4); (5, 10); (11, 15); (0, 0)])).
  { simpl. lia. }
  split; [split; [exact Hoff | reflexivity] |].
  exact (predicted_entities_ordered Sample.label_is_pii Sample.ID2LABEL
           Sample.softmax Sample.text
           [(0, 0); (0, 4); (5, 10); (11, 15); (0, 0)] [0; 1; 2; 3; 0] logits
           0.5 0 ents Hoff eq_refl).
Defined.

(** * Properties of the data generator *)

(** ** The pools *)

(** The pools have the sizes of the source and hold plain strings;
    the two-word locations are single strings. *)
Example pools_as_in_source :
  (length Gen.FIRST_NAMES, length Gen.LAST_NAMES, length Gen.CITIES,
   length Gen.LOCATIONS, length Gen.EMAIL_DOMAINS)
  = (60, 50, 50, 52, 16)%nat
  /\ forallb (fun s => forallb pool_char (Str.chars s))
       (Gen.FIRST_NAMES ++ Gen.LAST_NAMES ++ Gen.CITIES ++ Gen.LOCATIONS
        ++ Gen.EMAIL_DOMAINS) = true
  /\ Gen.LOCATIONS !! 4%nat = Some "hsr layout"%string
  /\ Gen.LOCATIONS !! 44%nat = Some "church street"%string
  /\ Gen.LOCATIONS !! 17%nat = Some "thane west"%string.
Proof. repeat split; vm_compute; reflexivity. Qed.

(** ** Strings *)

Lemma append_cons (c : ascii) (a b : string) :
  (String c a +:+ b)%string = String c (a +:+ b).
Proof. reflexivity. Qed.

Lemma append_nil_l (b : string) : (EmptyString +:+ b)%string = b.
Proof. reflexivity. Qed.

Lemma append_nil_r (s : string) : (s +:+ EmptyString)%string = s.
Proof.
  induction s as [| c s IH]; [reflexivity |]. by rewrite append_cons, IH.
Qed.

Lemma append_assoc (a b c : string) :
  ((a +:+ b) +:+ c)%string = (a +:+ (b +:+ c))%string.
Proof.
  induction a as [| x a IH]; [reflexivity |]. by rewrite !append_cons, IH.
Qed.

Lemma length_append (a b : string) :
  String.length (a +:+ b) = (String.length a + String.length b)%nat.
Proof.
  induction a as [| x a IH]; [reflexivity |].
  rewrite append_cons. simpl. by rewrite IH.
Qed.

Lemma substring_all (s : string) (n : nat) :
  (String.length s <= n)%nat -> substring 0 n s = s.
Proof.
  revert n. induction s as [| c s IH]; intros [| n] Hn; simpl in *;
    try reflexivity; try lia.
  rewrite IH by lia. reflexivity.
Qed.

Lemma substring_adjacent (s : string) (a n m : nat) :
  (substring a n s +:+ substring (a + n) m s)%string = substring a (n + m) s.
Proof.
  revert a n m. induction s as [| c s IH]; intros a n m.
  - destruct a, n, m; reflexivity.
  - destruct a as [| a].
    + destruct n as [| n]; [reflexivity |].
      change (String c (substring 0 n s +:+ substring (0 + n) m s)
              = String c (substring 0 (n + m) s)).
      by rewrite IH.
    + apply (IH a n m).
Qed.

Lemma slice_split (s : string) (k : nat) :
  (Str.slice 0 k s +:+ Str.slice_from k s)%string = s.
Proof.
  unfold Str.slice, Str.slice_from. rewrite Nat.sub_0_r.
  rewrite (substring_adjacent s 0 k). apply substring_all. lia.
Qed.

Lemma substring_chars (s : string) (a n : nat) (P : ascii -> Prop) :
  Forall P (Str.chars s) -> Forall P (Str.chars (substring a n s)).
Proof.
  revert a n. induction s as [| c s IH]; intros a n H.
  - destruct a, n; constructor.
  - apply Forall_cons in H as [Hc Hs]. destruct a as [| a].
    + destruct n as [| n]; simpl; [constructor |].
      constructor; [exact Hc | by apply IH].
    + simpl. by apply IH.
Qed.

Lemma all_digits_starts_plain (s : string) :
  all_digits s -> starts_plain s.
Proof.
  destruct s as [| c s]; [done |]. intros H. by apply Forall_cons in H as [Hc _].
Qed.

(** ** Spoken digits *)

Lemma spoken_word_digit (c : ascii) :
  is_digit c = true ->
  exists w, Gen.spoken_word c = Ok w
    /\ token_digits w = String c EmptyString
    /\ token_digits ("double " +:+ w) = String c (String c EmptyString).
Proof.
  destruct c as [[] [] [] [] [] [] [] []]; intros H; try discriminate H;
    eexists; (split; [reflexivity | split; reflexivity]).
Qed.

Lemma token_digits_plain (s : string) : starts_plain s -> token_digits s = s.
Proof.
  destruct s as [| c s]; [reflexivity |]. simpl.
  destruct c as [[] [] [] [] [] [] [] []]; intros H; try discriminate H;
    reflexivity.
Qed.

Lemma read_back_cons (tok : string) (toks : list string) :
  read_back (tok :: toks) = (token_digits tok +:+ read_back toks)%string.
Proof. reflexivity. Qed.

Lemma spoken_words_read_back (ds : list ascii) :
  Forall (fun c => is_digit c = true) ds ->
  exists ws, Gen.spoken_words ds = Ok ws
    /\ read_back ws = string_of_list_ascii ds.
Proof.
  induction 1 as [| d ds Hd _ [ws [Hws Hrb]]]; simpl.
  - exists []. split; reflexivity.
  - destruct (spoken_word_digit d Hd) as (w & Hw & Htok & _).
    rewrite Hw, Hws. simpl. exists (w :: ws). split; [reflexivity |].
    rewrite read_back_cons, Htok, Hrb. reflexivity.
Qed.

(** ** Drawing *)

Lemma gen_bind_unfold {A B : Type} (m : Rand.gen A) (k : A -> Rand.gen B)
    (g : Rand.rng) :
  (x ← m; k x) g
  = match m g with
    | Ok (a, g') => k a g'
    | Raise e => Raise e
    end.
Proof. reflexivity. Qed.

Lemma gen_bind_Ok {A B : Type} (m : Rand.gen A) (k : A -> Rand.gen B)
    (g g' : Rand.rng) (a : A) :
  m g = Ok (a, g') -> (x ← m; k x) g = k a g'.
Proof. intros H. by rewrite gen_bind_unfold, H. Qed.

Lemma gen_bind_Raise {A B : Type} (m : Rand.gen A) (k : A -> Rand.gen B)
    (g : Rand.rng) (e : exn) :
  m g = Raise e -> (x ← m; k x) g = Raise e.
Proof. intros H. by rewrite gen_bind_unfold, H. Qed.

Lemma choice_lookup {A : Type} (xs : list A) (g : Rand.rng) (x : A) :
  xs !! (Rand.picks g (Rand.n_picks g) mod length xs)%nat = Some x ->
  Rand.choice xs g = Ok (x, Rand.next_pick g).
Proof. intros H. unfold Rand.choice. by rewrite H. Qed.

Lemma choice_nonempty {A : Type} (xs : list A) (g : Rand.rng) :
  xs <> [] ->
  exists x, In x xs /\ Rand.choice xs g = Ok (x, Rand.next_pick g).
Proof.
  intros Hne.
  assert (Hlen : (0 < length xs)%nat) by (destruct xs; [done | simpl; lia]).
  destruct (lookup_lt_is_Some_2 xs
              (Rand.picks g (Rand.n_picks g) mod length xs)%nat) as [x Hx].
  { apply Nat.mod_upper_bound. lia. }
  exists x. split; [| by apply choice_lookup].
  apply list_elem_of_In. by eapply list_elem_of_lookup_2.
Qed.

Lemma choices_nonempty {A : Type} (xs : list A) (k : nat) (g : Rand.rng) :
  xs <> [] ->
  exists l g', Rand.choices xs k g = Ok (l, g')
    /\ length l = k /\ Forall (fun x => In x xs) l.
Proof.
  intros Hne. revert g. induction k as [| k IH]; intros g.
  - exists [], g. split; [reflexivity |]. split; [reflexivity | constructor].
  - destruct (choice_nonempty xs g Hne) as (x & Hin & Hx).
    destruct (IH (Rand.next_pick g)) as (l & g' & Hl & Hlen & Hall).
    exists (x :: l), g'. split.
    + simpl. unfold Rand.bind. rewrite Hx, Hl. reflexivity.
    + split; [simpl; by rewrite Hlen | by constructor].
Qed.

(** ** The token loops *)

Lemma mixed_tokens_read_back (p : Q) (ds : list ascii) :
  Forall (fun c => is_digit c = true) ds ->
  forall g, exists toks g',
    Gen.mixed_tokens p ds g = Ok (toks, g')
    /\ read_back toks = string_of_list_ascii ds.
Proof.
  induction 1 as [| d ds Hd _ IH]; intros g.
  - exists [], g. split; reflexivity.
  - change (Gen.mixed_tokens p (d :: ds))
      with (r ← Rand.random;
            tok ← (if Py.lt r p then Rand.ret (Str.char_str d)
                   else Rand.lift (Gen.spoken_word d));
            toks ← Gen.mixed_tokens p ds;
            Rand.ret (tok :: toks)).
    rewrite gen_bind_unfold. unfold Rand.random at 1.
    destruct (spoken_word_digit d Hd) as (w & Hw & Htok & _).
    destruct (IH (Rand.next_roll g)) as (toks & g' & Htoks & Hrb).
    destruct (Py.lt (Rand.rolls g (Rand.n_rolls g)) p).
    + exists (Str.char_str d :: toks), g'. split.
      * rewrite gen_bind_unfold. unfold Rand.ret at 1.
        by rewrite (gen_bind_Ok _ _ _ _ _ Htoks).
      * rewrite read_back_cons, Hrb, token_digits_plain; [reflexivity | exact Hd].
    + exists (w :: toks), g'. split.
      * rewrite gen_bind_unfold. unfold Rand.lift at 1. rewrite Hw.
        by rewrite (gen_bind_Ok _ _ _ _ _ Htoks).
      * rewrite read_back_cons, Hrb, Htok. reflexivity.
Qed.

Lemma double_tokens_read_back (n : nat) :
  forall ds, (length ds <= n)%nat ->
  Forall (fun c => is_digit c = true) ds ->
  forall g, exists toks g',
    Gen.double_tokens ds g = Ok (toks, g')
    /\ read_back toks = string_of_list_ascii ds.
Proof.
  induction n as [| n IH]; intros ds Hlen Hds g.
  - destruct ds; [| simpl in Hlen; lia].
    exists [], g. split; reflexivity.
  - destruct ds as [| d rest]; [exists [], g; split; reflexivity |].
    apply Forall_cons in Hds as [Hd Hrest]. simpl in Hlen.
    destruct (spoken_word_digit d Hd) as (w & Hw & Htok & Hdouble).
    assert (Hsingle : exists toks g',
              (r ← Rand.random;
               tok ← (if Py.lt r 0.5 then Rand.lift (Gen.spoken_word d)
                      else Rand.ret (Str.char_str d));
               toks ← Gen.double_tokens rest;
               Rand.ret (tok :: toks)) g = Ok (toks, g')
              /\ read_back toks = string_of_list_ascii (d :: rest)).
    { rewrite gen_bind_unfold. unfold Rand.random at 1.
      destruct (IH rest ltac:(lia) Hrest (Rand.next_roll g))
        as (toks & g' & Htoks & Hrb).
      destruct (Py.lt (Rand.rolls g (Rand.n_rolls g)) 0.5).
      - exists (w :: toks), g'. split.
        + rewrite gen_bind_unfold. unfold Rand.lift at 1. rewrite Hw.
          by rewrite (gen_bind_Ok _ _ _ _ _ Htoks).
        + rewrite read_back_cons, Hrb, Htok. reflexivity.
      - exists (Str.char_str d :: toks), g'. split.
        + rewrite gen_bind_unfold. unfold Rand.ret at 1.
          by rewrite (gen_bind_Ok _ _ _ _ _ Htoks).
        + rewrite read_back_cons, Hrb, token_digits_plain;
            [reflexivity | exact Hd]. }
    destruct rest as [| d' rest']; [exact Hsingle |].
    destruct (Ascii.eqb d d') eqn:Heq.
    + apply Ascii.eqb_eq in Heq. subst d'.
      apply Forall_cons in Hrest as [_ Hrest']. simpl in Hlen.
      destruct (IH rest' ltac:(lia) Hrest' g) as (toks & g' & Htoks & Hrb).
      exists (("double " +:+ w)%string :: toks), g'. split.
      * cbn [Gen.double_tokens]. rewrite Ascii.eqb_refl.
        rewrite gen_bind_unfold. unfold Rand.lift at 1. rewrite Hw.
        by rewrite (gen_bind_Ok _ _ _ _ _ Htoks).
      * rewrite read_back_cons, Hrb, Hdouble. reflexivity.
    + destruct Hsingle as (toks & g' & Htoks & Hrb).
      exists toks, g'. split; [| exact Hrb].
      cbn [Gen.double_tokens]. rewrite Heq. exact Htoks.
Qed.

Lemma read_back_plain_pair (a b : string) :
  starts_plain a -> starts_plain b ->
  read_back [a; b] = (a +:+ b)%string.
Proof.
  intros Ha Hb. unfold read_back. simpl.
  by rewrite !token_digits_plain, append_nil_r.
Qed.

Lemma read_back_plain (s : string) : starts_plain s -> read_back [s] = s.
Proof.
  intros Hs. unfold read_back. simpl.
  by rewrite token_digits_plain, append_nil_r.
Qed.

Lemma slice_starts_plain (s : string) (a b : nat) :
  all_digits s -> starts_plain (Str.slice a b s).
Proof. intros H. by apply all_digits_starts_plain, substring_chars. Qed.

Lemma slice_from_starts_plain (s : string) (a : nat) :
  all_digits s -> starts_plain (Str.slice_from a s).
Proof. intros H. by apply all_digits_starts_plain, substring_chars. Qed.

Lemma mod_cases (n k : nat) :
  (0 < k)%nat -> exists r, (n mod k = r)%nat /\ (r < k)%nat.
Proof.
  intros Hk. exists (n mod k)%nat. split; [done |].
  apply Nat.mod_upper_bound. lia.
Qed.

Lemma format_phone_tokens (digits : string) (g : Rand.rng) :
  all_digits digits ->
  exists toks g',
    Gen.format_phone_spoken digits g = Ok (Str.join " " toks, g')
    /\ read_back toks = digits.
Proof.
  intros Hd. unfold Gen.format_phone_spoken.
  rewrite gen_bind_unfold. unfold Rand.choice at 1.
  destruct (mod_cases (Rand.picks g (Rand.n_picks g)) 5 ltac:(lia))
    as (r & Hr & Hlt).
  simpl length. rewrite Hr.
  destruct r as [| [| [| [| [| r]]]]]; [| | | | | lia]; cbn [lookup list_lookup].
  - (* digits *)
    cbn [String.eqb Ascii.eqb Bool.eqb].
    rewrite gen_bind_unfold. unfold Rand.random at 1.
    destruct (Py.lt _ 0.5).
    + exists [digits]. eexists. split; [reflexivity |].
      by apply read_back_plain, all_digits_starts_plain.
    + eexists [_; _]. eexists. split; [reflexivity |].
      rewrite read_back_plain_pair;
        [apply slice_split | by apply slice_starts_plain
         | by apply slice_from_starts_plain].
  - (* words *)
    cbn [String.eqb Ascii.eqb Bool.eqb].
    destruct (spoken_words_read_back (Str.chars digits) Hd) as (ws & Hws & Hrb).
    rewrite gen_bind_unfold. unfold Rand.lift at 1. rewrite Hws.
    exists ws. eexists. split; [reflexivity |].
    rewrite Hrb. apply string_of_list_ascii_of_string.
  - (* mixed *)
    cbn [String.eqb Ascii.eqb Bool.eqb].
    destruct (mixed_tokens_read_back 0.5 (Str.chars digits) Hd (Rand.next_pick g))
      as (toks & g' & Htoks & Hrb).
    rewrite (gen_bind_Ok _ _ _ _ _ Htoks).
    exists toks, g'. split; [reflexivity |].
    rewrite Hrb. apply string_of_list_ascii_of_string.
  - (* grouped *)
    cbn [String.eqb Ascii.eqb Bool.eqb].
    destruct (String.length digits =? 10)%nat.
    + eexists [_; _]. eexists. split; [reflexivity |].
      rewrite read_back_plain_pair;
        [apply slice_split | by apply slice_starts_plain
         | by apply slice_from_starts_plain].
    + exists [digits]. eexists. split; [reflexivity |].
      by apply read_back_plain, all_digits_starts_plain.
  - (* double *)
    cbn [String.eqb Ascii.eqb Bool.eqb].
    destruct (double_tokens_read_back (length (Str.chars digits))
                (Str.chars digits) ltac:(lia) Hd (Rand.next_pick g))
      as (toks & g' & Htoks & Hrb).
    rewrite (gen_bind_Ok _ _ _ _ _ Htoks).
    exists toks, g'. split; [reflexivity |].
    rewrite Hrb. apply string_of_list_ascii_of_string.
Qed.

(** X10. Every spoken form of a phone number spells the number: for a
    string of digits, in each of the five styles and whatever is drawn,
    [format_phone_spoken] raises nothing and returns space-separated
    tokens (digit groups, spelled digits, ["double"] with a spelled
    digit) that read back to the digits in order. *)
Theorem phone_spoken_reads_back (digits : string) (g : Rand.rng) :
  all_digits digits ->
  exists toks g',
    Gen.format_phone_spoken digits g = Ok (Str.join " " toks, g')
    /\ read_back toks = digits.
Proof. apply format_phone_tokens. Qed.

Lemma phone_spoken_reads_back_witness :
  all_digits "9988012345" /\
  exists toks g',
    Gen.format_phone_spoken "9988012345" (sample_rng 4 1 0.7)
      = Ok (Str.join " " toks, g')
    /\ read_back toks = "9988012345"%string.
Proof.
  assert (Hd : all_digits "9988012345") by (repeat constructor).
  split; [exact Hd |].
  exact (phone_spoken_reads_back "9988012345" (sample_rng 4 1 0.7) Hd).
Defined.

(** The "double" style on that number. *)
Example phone_double_style :
  exists g',
    Gen.format_phone_spoken "9988012345" (sample_rng 4 1 0.7)
    = Ok ("double nine double eight 0 1 2 3 4 5"%string, g').
Proof. eexists. reflexivity. Qed.

Lemma read_back_all_plain (toks : list string) :
  Forall starts_plain toks ->
  read_back toks = fold_right String.append EmptyString toks.
Proof.
  induction 1 as [| tok toks Htok _ IH]; [reflexivity |].
  rewrite read_back_cons, IH, token_digits_plain by exact Htok. reflexivity.
Qed.

Lemma four_groups (s : string) :
  (substring 0 4 s +:+ substring 4 4 s +:+ substring 8 4 s
   +:+ substring 12 4 s)%string = substring 0 16 s.
Proof.
  change (substring 12 4 s) with (substring (8 + 4) 4 s).
  rewrite (substring_adjacent s 8 4 4).
  change (substring 8 (4 + 4) s) with (substring (4 + 4) 8 s).
  rewrite (substring_adjacent s 4 4 8).
  change (substring 4 (4 + 8) s) with (substring (0 + 4) 12 s).
  rewrite (substring_adjacent s 0 4 12).
  reflexivity.
Qed.

(** X11. Every spoken form of a card number spells the number: for a
    string of at most 16 digits, in each of the four styles and
    whatever is drawn, [format_credit_card_spoken] raises nothing and
    returns space-separated tokens that read back to the digits in
    order. *)
Theorem credit_card_spoken_reads_back (digits : string) (g : Rand.rng) :
  all_digits digits -> (String.length digits <= 16)%nat ->
  exists toks g',
    Gen.format_credit_card_spoken digits g = Ok (Str.join " " toks, g')
    /\ read_back toks = digits.
Proof.
  intros Hd Hlen. unfold Gen.format_credit_card_spoken.
  rewrite gen_bind_unfold. unfold Rand.choice at 1.
  destruct (mod_cases (Rand.picks g (Rand.n_picks g)) 4 ltac:(lia))
    as (r & Hr & Hlt).
  simpl length. rewrite Hr.
  destruct r as [| [| [| [| r]]]]; [| | | | lia]; cbn [lookup list_lookup];
    cbn [String.eqb Ascii.eqb Bool.eqb].
  - destruct (spoken_words_read_back (Str.chars digits) Hd) as (ws & Hws & Hrb).
    rewrite gen_bind_unfold. unfold Rand.lift at 1. rewrite Hws.
    exists ws. eexists. split; [reflexivity |].
    rewrite Hrb. apply string_of_list_ascii_of_string.
  - destruct (mixed_tokens_read_back Gen.float_0_4 (Str.chars digits) Hd (Rand.next_pick g))
      as (toks & g' & Htoks & Hrb).
    rewrite (gen_bind_Ok _ _ _ _ _ Htoks).
    exists toks, g'. split; [reflexivity |].
    rewrite Hrb. apply string_of_list_ascii_of_string.
  - eexists. eexists. split; [reflexivity |].
    rewrite read_back_all_plain.
    + cbn [map fold_right]. unfold Str.slice. cbn [Nat.add Nat.sub].
      rewrite append_nil_r, four_groups. by apply substring_all.
    + cbn [map]. repeat constructor; by apply slice_starts_plain.
  - exists [digits]. eexists. split; [reflexivity |].
    by apply read_back_plain, all_digits_starts_plain.
Qed.

Lemma credit_card_spoken_reads_back_witness :
  (all_digits "4111222233334444"
   /\ (String.length "4111222233334444" <= 16)%nat) /\
  exists toks g',
    Gen.format_credit_card_spoken "4111222233334444" (sample_rng 2 1 0.7)
      = Ok (Str.join " " toks, g')
    /\ read_back toks = "4111222233334444"%string.
Proof.
  assert (Hd : all_digits "4111222233334444") by (repeat constructor).
  assert (Hlen : (String.length "4111222233334444" <= 16)%nat) by (simpl; lia).
  split; [split; assumption |].
  exact (credit_card_spoken_reads_back "4111222233334444" (sample_rng 2 1 0.7)
           Hd Hlen).
Defined.

(** The "grouped" style keeps the first 16 characters only. *)
Example credit_card_grouped_truncates :
  exists g',
    Gen.format_credit_card_spoken "41112222333344445555" (sample_rng 2 1 0.7)
    = Ok ("4111 2222 3333 4444"%string, g').
Proof. exists (Rand.next_pick (sample_rng 2 1 0.7)). reflexivity. Qed.

(** ** Generated numbers *)

Lemma chars_append (a b : string) :
  Str.chars (a +:+ b) = Str.chars a ++ Str.chars b.
Proof.
  induction a as [| c a IH]; [reflexivity |].
  rewrite append_cons. unfold Str.chars in *. simpl. by rewrite IH.
Qed.

Lemma length_string_of_list (l : list ascii) :
  String.length (string_of_list_ascii l) = length l.
Proof. induction l as [| c l IH]; simpl; [reflexivity | by rewrite IH]. Qed.

Lemma drawn_digits (l : list ascii) :
  Forall (fun c => In c (Str.chars "0123456789")) l ->
  all_digits (string_of_list_ascii l).
Proof.
  intros H. unfold all_digits, Str.chars.
  rewrite list_ascii_of_string_of_list_ascii.
  eapply Forall_impl; [exact H |].
  intros c Hc. simpl in Hc.
  repeat (destruct Hc as [<- | Hc]; [reflexivity |]). destruct Hc.
Qed.

Lemma generate_phone_digits (g : Rand.rng) :
  exists raw g',
    Gen.generate_phone g = Ok (raw, g')
    /\ all_digits raw /\ String.length raw = 10%nat.
Proof.
  unfold Gen.generate_phone.
  destruct (choice_nonempty ["6"; "7"; "8"; "9"]%string g ltac:(discriminate))
    as (first & Hin & Hfirst).
  destruct (choices_nonempty (Str.chars "0123456789") 9 (Rand.next_pick g)
              ltac:(discriminate)) as (l & g' & Hl & Hlen & Hall).
  exists (first +:+ string_of_list_ascii l)%string, g'.
  rewrite (gen_bind_Ok _ _ _ _ _ Hfirst), (gen_bind_Ok _ _ _ _ _ Hl).
  split; [reflexivity |].
  assert (Hfd : all_digits first /\ String.length first = 1%nat).
  { simpl in Hin.
    repeat (destruct Hin as [<- | Hin];
            [split; [repeat constructor | reflexivity] |]).
    destruct Hin. }
  destruct Hfd as [Hfd Hfl]. split.
  - unfold all_digits. rewrite chars_append. apply Forall_app.
    split; [exact Hfd | by apply drawn_digits].
  - rewrite length_append, Hfl, length_string_of_list, Hlen. reflexivity.
Qed.

(** X12. The generated numbers are well formed, whatever is drawn:
    [generate_phone] returns ten digits of which the first is 6, 7, 8
    or 9, and [generate_credit_card] returns sixteen digits; neither
    raises. *)
Theorem generated_numbers_well_formed (g : Rand.rng) :
  (exists first rest g',
     Gen.generate_phone g = Ok ((first +:+ rest)%string, g')
     /\ In first ["6"; "7"; "8"; "9"]%string
     /\ all_digits (first +:+ rest)
     /\ String.length (first +:+ rest) = 10%nat)
  /\ (exists digits g',
        Gen.generate_credit_card g = Ok (digits, g')
        /\ all_digits digits /\ String.length digits = 16%nat).
Proof.
  split.
  - unfold Gen.generate_phone.
    destruct (choice_nonempty ["6"; "7"; "8"; "9"]%string g ltac:(discriminate))
      as (first & Hin & Hfirst).
    destruct (choices_nonempty (Str.chars "0123456789") 9 (Rand.next_pick g)
                ltac:(discriminate)) as (l & g' & Hl & Hlen & Hall).
    exists first, (string_of_list_ascii l), g'.
    rewrite (gen_bind_Ok _ _ _ _ _ Hfirst), (gen_bind_Ok _ _ _ _ _ Hl).
    split; [reflexivity |]. split; [exact Hin |].
    assert (Hfd : all_digits first /\ String.length first = 1%nat).
    { simpl in Hin.
      repeat (destruct Hin as [<- | Hin];
              [split; [repeat constructor | reflexivity] |]).
      destruct Hin. }
    destruct Hfd as [Hfd Hfl]. split.
    + unfold all_digits. rewrite chars_append. apply Forall_app.
      split; [exact Hfd | by apply drawn_digits].
    + rewrite length_append, Hfl, length_string_of_list, Hlen. reflexivity.
  - unfold Gen.generate_credit_card.
    destruct (choices_nonempty (Str.chars "0123456789") 16 g ltac:(discriminate))
      as (l & g' & Hl & Hlen & Hall).
    exists (string_of_list_ascii l), g'.
    rewrite (gen_bind_Ok _ _ _ _ _ Hl).
    split; [reflexivity |]. split; [by apply drawn_digits |].
    by rewrite length_string_of_list.
Qed.

(** ** Dates *)

Lemma getitem_out_of_range {A : Type} (xs : list A) (i : Z) :
  i < - Z.of_nat (length xs) \/ Z.of_nat (length xs) <= i ->
  Py.getitem xs i = Raise IndexError.
Proof.
  intros Hi. unfold getitem.
  destruct ((0 <=? i) && (i <? Z.of_nat (length xs))) eqn:H1.
  { apply andb_true_iff in H1 as [Ha Hb]. apply Z.leb_le in Ha.
    apply Z.ltb_lt in Hb. lia. }
  destruct ((- Z.of_nat (length xs) <=? i) && (i <? 0)) eqn:H2; [| reflexivity].
  apply andb_true_iff in H2 as [Ha Hb]. apply Z.leb_le in Ha.
  apply Z.ltb_lt in Hb. lia.
Qed.

(** X13. [format_date_spoken] raises exactly when a style that names
    the month is drawn and [month] is outside -11..12, and then
    [IndexError]; day and year are never checked.  (Months -11 to 0
    are accepted and wrap around: 0 is december.) *)
Theorem date_spoken_fails_iff (day month year : Z) (g : Rand.rng) :
  (is_ok (Gen.format_date_spoken day month year g) = false
   <-> (month < -11 \/ 12 < month)
       /\ (2 <= Rand.picks g (Rand.n_picks g) mod 5)%nat)
  /\ (forall e, Gen.format_date_spoken day month year g = Raise e ->
        e = IndexError).
Proof.
  assert (Hres : forall R, R = Gen.format_date_spoken day month year g ->
    (exists v, R = Ok v
       /\ ~ ((month < -11 \/ 12 < month)
             /\ (2 <= Rand.picks g (Rand.n_picks g) mod 5)%nat))
    \/ (R = Raise IndexError
        /\ (month < -11 \/ 12 < month)
        /\ (2 <= Rand.picks g (Rand.n_picks g) mod 5)%nat)).
  { intros R HR. unfold Gen.format_date_spoken in HR.
    rewrite gen_bind_unfold in HR. unfold Rand.choice at 1 in HR.
    destruct (mod_cases (Rand.picks g (Rand.n_picks g)) 5 ltac:(lia))
      as (r & Hr & Hlt).
    simpl length in HR. rewrite Hr in HR |- *.
    set (months := ["january"; "february"; "march"; "april"; "may"; "june";
                    "july"; "august"; "september"; "october"; "november";
                    "december"]%string) in HR.
    assert (Hm : (exists m, Py.getitem months (month - 1) = Ok m
                   /\ -11 <= month <= 12)
                 \/ (Py.getitem months (month - 1) = Raise IndexError
                     /\ (month < -11 \/ 12 < month))).
    { destruct (Z_lt_le_dec month (-11)) as [Hlo | Hlo].
      - right. split; [| lia]. apply getitem_out_of_range. simpl. lia.
      - destruct (Z_lt_le_dec 12 month) as [Hhi | Hhi].
        + right. split; [| lia]. apply getitem_out_of_range. simpl. lia.
        + left. destruct (getitem_in_range months (month - 1)) as [m Hm];
            [simpl; lia |]. exists m. split; [exact Hm | lia]. }
    destruct r as [| [| [| [| [| r]]]]]; [| | | | | lia];
      cbn [lookup list_lookup] in HR;
      cbn [String.eqb Ascii.eqb Bool.eqb] in HR.
    1, 2: left; eexists; split; [exact HR | intros [_ H]; lia].
    all: rewrite gen_bind_unfold in HR; unfold Rand.lift at 1 in HR;
      destruct Hm as [(m & Hm & Hin) | [Hm Hout]]; rewrite Hm in HR;
      [ left; eexists; split; [exact HR | intros [H _]; lia]
      | right; split; [exact HR | split; [exact Hout | lia]] ]. }
  destruct (Hres _ eq_refl) as [(v & -> & Hn) | (-> & Hc)]; cbn [is_ok].
  - split; [split; [discriminate | intros H; by destruct Hn] | discriminate].
  - split; [split; [intros _; exact Hc | reflexivity] | by intros e [= <-]].
Qed.

Lemma date_spoken_in_range (day month year : Z) (g : Rand.rng) :
  -11 <= month <= 12 ->
  is_ok (Gen.format_date_spoken day month year g) = true.
Proof.
  intros Hin. unfold Gen.format_date_spoken.
  rewrite gen_bind_unfold. unfold Rand.choice at 1.
  destruct (mod_cases (Rand.picks g (Rand.n_picks g)) 5 ltac:(lia))
    as (r & Hr & Hlt).
  simpl length. rewrite Hr.
  set (months := ["january"; "february"; "march"; "april"; "may"; "june";
                  "july"; "august"; "september"; "october"; "november";
                  "december"]%string).
  destruct (getitem_in_range months (month - 1)) as [m Hm]; [simpl; lia |].
  destruct r as [| [| [| [| [| r]]]]]; [| | | | | lia]; cbn [lookup list_lookup];
    cbn [String.eqb Ascii.eqb Bool.eqb]; [reflexivity | reflexivity | | |];
    rewrite gen_bind_unfold; unfold Rand.lift at 1; rewrite Hm; reflexivity.
Qed.

(** X14. Every date that [generate_date] draws (day 1..28, month
    1..12, year 2023..2027) is formatted without an exception in every
    style. *)
Theorem generated_date_formats (g : Rand.rng) :
  exists day month year g1,
    Gen.generate_date g = Ok ((day, month, year), g1)
    /\ 1 <= day <= 28 /\ 1 <= month <= 12 /\ 2023 <= year <= 2027
    /\ forall g2, is_ok (Gen.format_date_spoken day month year g2) = true.
Proof.
  unfold Gen.generate_date.
  set (y := 2023 + Z.of_nat (Rand.picks g (Rand.n_picks g)) mod (2027 - 2023 + 1)).
  set (g1 := Rand.next_pick g).
  set (m := 1 + Z.of_nat (Rand.picks g1 (Rand.n_picks g1)) mod (12 - 1 + 1)).
  set (g2 := Rand.next_pick g1).
  set (d := 1 + Z.of_nat (Rand.picks g2 (Rand.n_picks g2)) mod (28 - 1 + 1)).
  exists d, m, y, (Rand.next_pick g2).
  split; [reflexivity |].
  assert (Hy : 2023 <= y <= 2027).
  { unfold y. pose proof (Z.mod_pos_bound
      (Z.of_nat (Rand.picks g (Rand.n_picks g))) (2027 - 2023 + 1)). lia. }
  assert (Hm : 1 <= m <= 12).
  { unfold m. pose proof (Z.mod_pos_bound
      (Z.of_nat (Rand.picks g1 (Rand.n_picks g1))) (12 - 1 + 1)). lia. }
  assert (Hd : 1 <= d <= 28).
  { unfold d. pose proof (Z.mod_pos_bound
      (Z.of_nat (Rand.picks g2 (Rand.n_picks g2))) (28 - 1 + 1)). lia. }
  repeat (split; [lia |]).
  intros g3.
  apply date_spoken_in_range. lia.
Qed.

Lemma ordinal_suffix_english (day : Z) :
  1 <= day <= 31 ->
  (if (day =? 1) || (day =? 21) || (day =? 31) then "st"%string
   else if (day =? 2) || (day =? 22) then "nd"%string
   else if (day =? 3) || (day =? 23) then "rd"%string
   else "th"%string) = english_ordinal day.
Proof.
  intros Hd.
  assert (Hn : day = Z.of_nat (Z.to_nat day)) by lia.
  assert (Hle : (Z.to_nat day <= 31)%nat) by lia.
  revert Hn Hle. generalize (Z.to_nat day). intros n -> Hle. clear Hd.
  do 32 (destruct n as [| n]; [reflexivity |]). lia.
Qed.

Lemma getitem_nonneg {A : Type} (xs : list A) (i : nat) (x : A) :
  xs !! i = Some x -> Py.getitem xs (Z.of_nat i) = Ok x.
Proof.
  intros Hx. pose proof (lookup_lt_Some _ _ _ Hx) as Hlt.
  unfold getitem, getitem_nat.
  replace (0 <=? Z.of_nat i) with true by (symmetry; apply Z.leb_le; lia).
  replace (Z.of_nat i <? Z.of_nat (length xs)) with true
    by (symmetry; apply Z.ltb_lt; lia).
  simpl. by rewrite Nat2Z.id, Hx.
Qed.

(** X15. In the style that writes an ordinal, a day of the month
    (1..31) gets its English suffix: st for 1, 21 and 31, nd for 2 and
    22, rd for 3 and 23, th otherwise, in particular for 11, 12, 13. *)
Theorem date_ordinal_suffix (day month year : Z) (g : Rand.rng) :
  1 <= day <= 31 -> 1 <= month <= 12 ->
  (Rand.picks g (Rand.n_picks g) mod 5)%nat = 3%nat ->
  exists m,
    ["january"; "february"; "march"; "april"; "may"; "june"; "july";
     "august"; "september"; "october"; "november"; "december"]%string
      !! Z.to_nat (month - 1) = Some m
    /\ Gen.format_date_spoken day month year g
       = Ok ((Str.of_int day +:+ english_ordinal day +:+ " " +:+ m +:+ " "
              +:+ Str.of_int year)%string, Rand.next_pick g).
Proof.
  intros Hd Hm Hstyle.
  set (months := ["january"; "february"; "march"; "april"; "may"; "june";
                  "july"; "august"; "september"; "october"; "november";
                  "december"]%string).
  destruct (lookup_lt_is_Some_2 months (Z.to_nat (month - 1))) as [m Hlook];
    [simpl; lia |].
  exists m. split; [exact Hlook |].
  unfold Gen.format_date_spoken.
  rewrite gen_bind_unfold. unfold Rand.choice at 1.
  simpl length. rewrite Hstyle. cbn [lookup list_lookup].
  cbn [String.eqb Ascii.eqb Bool.eqb].
  rewrite gen_bind_unfold. unfold Rand.lift at 1.
  fold months.
  replace (month - 1) with (Z.of_nat (Z.to_nat (month - 1))) at 1 by lia.
  rewrite (getitem_nonneg months _ m Hlook).
  rewrite (ordinal_suffix_english day Hd). reflexivity.
Qed.

Lemma date_ordinal_suffix_witness :
  (1 <= 22 <= 31 /\ 1 <= 3 <= 12
   /\ (Rand.picks (sample_rng 3 1 0.5)
         (Rand.n_picks (sample_rng 3 1 0.5)) mod 5)%nat = 3%nat)
  /\ exists m,
       ["january"; "february"; "march"; "april"; "may"; "june"; "july";
        "august"; "september"; "october"; "november"; "december"]%string
         !! Z.to_nat (3 - 1) = Some m
       /\ Gen.format_date_spoken 22 3 2025 (sample_rng 3 1 0.5)
          = Ok ((Str.of_int 22 +:+ english_ordinal 22 +:+ " " +:+ m +:+ " "
                 +:+ Str.of_int 2025)%string,
                Rand.next_pick (sample_rng 3 1 0.5)).
Proof.
  split; [split; [lia | split; [lia | reflexivity]] |].
  apply (date_ordinal_suffix 22 3 2025 (sample_rng 3 1 0.5));
    [lia | lia | reflexivity].
Defined.

Example date_ordinal_22 :
  Gen.format_date_spoken 22 3 2025 (sample_rng 3 1 0.5)
  = Ok ("22nd march 2025"%string, Rand.next_pick (sample_rng 3 1 0.5)).
Proof. reflexivity. Qed.

(** ** Email addresses *)

(** X16. [generate_email] raises only when the style that abbreviates
    the first name to its initial is drawn for an empty first name,
    and then [IndexError]; every address it returns is the last name
    preceded by a local part and followed by [@] and a domain of the
    pool. *)
Theorem generate_email_fails_iff (first_name last_name : string)
    (g : Rand.rng) :
  (is_ok (Gen.generate_email first_name last_name g) = false
   <-> first_name = EmptyString
       /\ (Rand.picks g (S (Rand.n_picks g)) mod 4)%nat = 3%nat)
  /\ (forall e, Gen.generate_email first_name last_name g = Raise e ->
        e = IndexError)
  /\ (forall out g', Gen.generate_email first_name last_name g = Ok (out, g') ->
        exists before domain,
          In domain Gen.EMAIL_DOMAINS
          /\ out = (before +:+ last_name +:+ "@" +:+ domain)%string).
Proof.
  destruct (choice_nonempty Gen.EMAIL_DOMAINS g ltac:(discriminate))
    as (domain & Hdom & Hchoice).
  assert (Hres : forall R, R = Gen.generate_email first_name last_name g ->
    (exists before g', R = Ok ((before +:+ last_name +:+ "@" +:+ domain)%string, g')
       /\ ~ (first_name = EmptyString
             /\ (Rand.picks g (S (Rand.n_picks g)) mod 4)%nat = 3%nat))
    \/ (R = Raise IndexError
        /\ first_name = EmptyString
        /\ (Rand.picks g (S (Rand.n_picks g)) mod 4)%nat = 3%nat)).
  { intros R HR. unfold Gen.generate_email in HR.
    rewrite (gen_bind_Ok _ _ _ _ _ Hchoice) in HR.
    rewrite gen_bind_unfold in HR. unfold Rand.choice at 1 in HR.
    change (Rand.picks (Rand.next_pick g) (Rand.n_picks (Rand.next_pick g)))
      with (Rand.picks g (S (Rand.n_picks g))) in HR.
    destruct (mod_cases (Rand.picks g (S (Rand.n_picks g))) 4 ltac:(lia))
      as (r & Hr & Hlt).
    simpl length in HR. rewrite Hr in HR |- *.
    destruct r as [| [| [| [| r]]]]; [| | | | lia];
      cbn [lookup list_lookup] in HR;
      cbn [String.eqb Ascii.eqb Bool.eqb] in HR.
    - left. exists (first_name +:+ ".")%string. eexists.
      split; [rewrite append_assoc; exact HR | intros [_ H]; discriminate H].
    - left. exists (first_name +:+ "_")%string. eexists.
      split; [rewrite append_assoc; exact HR | intros [_ H]; discriminate H].
    - left. exists first_name. eexists.
      split; [exact HR | intros [_ H]; discriminate H].
    - rewrite gen_bind_unfold in HR. unfold Rand.lift at 1 in HR.
      destruct first_name as [| c rest].
      + right. split; [exact HR | split; reflexivity].
      + left. exists (Str.char_str c +:+ ".")%string. eexists.
        split; [rewrite append_assoc; exact HR | intros [H _]; discriminate H]. }
  destruct (Hres _ eq_refl) as [(before & g' & Heq & Hn) | (Heq & Hc)];
    rewrite Heq; cbn [is_ok].
  - split; [split; [discriminate | intros H; by destruct Hn] |].
    split; [discriminate |].
    intros out g'' [= <- <-]. exists before, domain. by split.
  - split; [split; [intros _; exact Hc | reflexivity] |].
    split; [by intros e [= <-] | discriminate].
Qed.

(** ** Locating entities in the text *)

Lemma substring_prefix (sub post : string) :
  substring 0 (String.length sub) (sub +:+ post) = sub.
Proof.
  induction sub as [| c sub IH]; [by destruct post |].
  rewrite append_cons. simpl. by rewrite IH.
Qed.

Lemma substring_skip (pre rest : string) (n : nat) :
  substring (String.length pre) n (pre +:+ rest) = substring 0 n rest.
Proof.
  induction pre as [| c pre IH]; [reflexivity |].
  rewrite append_cons. simpl. exact IH.
Qed.

Lemma substring_shift (s : string) (k m a n : nat) :
  (a + n <= m)%nat ->
  substring a n (substring k m s) = substring (k + a) n s.
Proof.
  revert k m a n. induction s as [| c s IH]; intros k m a n Hle.
  - destruct k, m, a, n; reflexivity.
  - destruct k as [| k]; [| simpl; by apply IH].
    destruct m as [| m].
    + assert (a = 0%nat) by lia. assert (n = 0%nat) by lia. subst. reflexivity.
    + destruct a as [| a]; simpl.
      * destruct n as [| n]; [reflexivity |].
        f_equal. apply (IH 0%nat m 0%nat n). lia.
      * apply (IH 0%nat m a n). lia.
Qed.

Lemma length_substring (s : string) (k n : nat) :
  String.length (substring k n s) = Nat.min n (String.length s - k).
Proof.
  revert k n. induction s as [| c s IH]; intros k n.
  - destruct k, n; reflexivity.
  - destruct k as [| k].
    + destruct n as [| n]; [reflexivity |]. simpl. by rewrite IH, Nat.sub_0_r.
    + simpl. apply IH.
Qed.

Lemma occurs_at (sub text : string) :
  occurs sub text ->
  exists pre post, text = (pre +:+ sub +:+ post)%string
    /\ substring (String.length pre) (String.length sub) text = sub.
Proof.
  intros (pre & post & ->). exists pre, post. split; [reflexivity |].
  rewrite substring_skip. apply substring_prefix.
Qed.

(** [text.find(sub)] finds an occurrence when there is one. *)
Lemma index_occurs (sub text : string) :
  occurs sub text ->
  exists i, String.index 0 sub text = Some i
    /\ substring i (String.length sub) text = sub
    /\ forall p, (p < i)%nat -> substring p (String.length sub) text <> sub.
Proof.
  intros Hocc. destruct (occurs_at sub text Hocc) as (pre & post & _ & Hsub).
  destruct (String.index 0 sub text) as [i |] eqn:Hi.
  - exists i. split; [reflexivity |]. split; [by eapply index_correct1 |].
    intros p Hp. eapply index_correct2; [exact Hi | lia | exact Hp].
  - exfalso. destruct sub as [| c sub].
    + apply index_correct4 in Hi. lia.
    + eapply (index_correct3 0 (String.length pre)); [exact Hi | done | lia |].
      exact Hsub.
Qed.

Lemma occurs_here (sub post : string) : occurs sub (sub +:+ post).
Proof. exists EmptyString, post. reflexivity. Qed.

Lemma occurs_end (sub : string) : occurs sub sub.
Proof. exists EmptyString, EmptyString. by rewrite append_nil_r. Qed.

Lemma occurs_later (sub a text : string) :
  occurs sub text -> occurs sub (a +:+ text).
Proof.
  intros (pre & post & ->). exists (a +:+ pre)%string, post.
  by rewrite append_assoc.
Qed.

Lemma mark_found (text surface label : string) (entities : list Gen.gold) :
  occurs surface text ->
  exists e,
    Gen.mark text surface label entities = entities ++ [e]
    /\ Gen.gold_label e = label
    /\ 0 <= Gen.gold_start e
    /\ Gen.gold_end e = Gen.gold_start e + Z.of_nat (String.length surface)
    /\ Gen.gold_end e <= Z.of_nat (String.length text)
    /\ gold_slice text e = surface
    /\ forall p, (p < Z.to_nat (Gen.gold_start e))%nat ->
         substring p (String.length surface) text <> surface.
Proof.
  intros Hocc. destruct (index_occurs surface text Hocc) as (i & Hi & Hsub & Hmin).
  unfold Gen.mark, Str.find. rewrite Hi.
  replace (0 <=? Z.of_nat i) with true by (symmetry; apply Z.leb_le; lia).
  eexists. split; [reflexivity |]. simpl.
  split; [reflexivity |]. split; [lia |]. split; [reflexivity |].
  assert (Hlen : (String.length surface <= String.length text - i)%nat).
  { pose proof (length_substring text i (String.length surface)) as Hl.
    rewrite Hsub in Hl. lia. }
  split.
  - destruct (String.length surface) as [| n] eqn:Hn; [| lia].
    destruct surface; [| discriminate Hn].
    destruct text; simpl in Hi; injection Hi as <-; lia.
  - split.
    + unfold gold_slice. simpl.
      replace (Z.to_nat (Z.of_nat i + Z.of_nat (String.length surface)
                         - Z.of_nat i)) with (String.length surface) by lia.
      by rewrite Nat2Z.id.
    + by rewrite Nat2Z.id.
Qed.



(** ** Template generators *)

Ltac find_occurrence :=
  repeat first [ apply occurs_here | apply occurs_end | apply occurs_later ].

(** X18. [gen_name_phone] never raises, whatever is drawn.  Its sample
    has exactly a [PERSON_NAME] and a [PHONE] entity, in this order and
    within the text; the text under the first is a first and a last
    name of the pools, and the text under the second is a spoken
    number that reads back to ten digits. *)
Theorem gen_name_phone_labels_text (g : Rand.rng) :
  exists smp g' first last toks e_name e_phone,
    Gen.gen_name_phone g = Ok (smp, g')
    /\ In first Gen.FIRST_NAMES /\ In last Gen.LAST_NAMES
    /\ Gen.sample_entities smp = [e_name; e_phone]
    /\ Gen.gold_label e_name = "PERSON_NAME"%string
    /\ Gen.gold_label e_phone = "PHONE"%string
    /\ 0 <= Gen.gold_start e_name
    /\ Gen.gold_end e_name <= Z.of_nat (String.length (Gen.sample_text smp))
    /\ 0 <= Gen.gold_start e_phone
    /\ Gen.gold_end e_phone <= Z.of_nat (String.length (Gen.sample_text smp))
    /\ gold_slice (Gen.sample_text smp) e_name = (first +:+ " " +:+ last)%string
    /\ gold_slice (Gen.sample_text smp) e_phone = Str.join " " toks
    /\ all_digits (read_back toks)
    /\ String.length (read_back toks) = 10%nat.
Proof.
  unfold Gen.gen_name_phone.
  destruct (choice_nonempty Gen.FIRST_NAMES g ltac:(discriminate))
    as (first & Hfirst & H1).
  destruct (choice_nonempty Gen.LAST_NAMES (Rand.next_pick g) ltac:(discriminate))
    as (last & Hlast & H2).
  destruct (generate_phone_digits (Rand.next_pick (Rand.next_pick g)))
    as (raw & g3 & H3 & Hd & Hlen).
  destruct (format_phone_tokens raw g3 Hd) as (toks & g4 & H4 & Hrb).
  rewrite (gen_bind_Ok _ _ _ _ _ H1). cbv beta.
  rewrite (gen_bind_Ok _ _ _ _ _ H2). cbv beta zeta.
  rewrite (gen_bind_Ok _ _ _ _ _ H3). cbv beta.
  rewrite (gen_bind_Ok _ _ _ _ _ H4). cbv beta zeta.
  set (name := (first +:+ " " +:+ last)%string).
  set (phone := Str.join " " toks).
  rewrite gen_bind_unfold. unfold Rand.choice at 1.
  destruct (mod_cases (Rand.picks g4 (Rand.n_picks g4)) 5 ltac:(lia))
    as (r & Hr & Hlt).
  simpl length. rewrite Hr.
  destruct r as [| [| [| [| [| r]]]]]; [| | | | | lia]; cbn [lookup list_lookup];
    match goal with
    | |- context [Gen.mark ?text name _ []] =>
        destruct (mark_found text name "PERSON_NAME" [])
          as (e1 & Hm1 & Hl1 & Hs1 & _ & He1 & Hsl1 & _);
        [find_occurrence |];
        destruct (mark_found text phone "PHONE" ([] ++ [e1]))
          as (e2 & Hm2 & Hl2 & Hs2 & _ & He2 & Hsl2 & _);
        [find_occurrence |];
        rewrite Hm1, Hm2
    end;
    (eexists; exists (Rand.next_pick g4), first, last, toks, e1, e2;
     split; [reflexivity |]; cbn [Gen.sample_text Gen.sample_entities];
     rewrite Hrb; repeat (split; [assumption || reflexivity |]); exact Hlen).
Qed.

Lemma cities_nonempty (city : string) :
  In city Gen.CITIES -> (0 < String.length city)%nat.
Proof.
  intros Hin. simpl in Hin.
  repeat (destruct Hin as [<- | Hin]; [simpl; lia |]). destruct Hin.
Qed.

(** X19. [gen_location_city] never raises; its sample has exactly a
    [LOCATION] and a [CITY] entity, each marking in the text a string
    of its pool.  The [CITY] entity marks the first place where the
    city's name is found: when the location's name contains it (as
    "thane west" contains "thane"), the entity starts before the end
    of the [LOCATION] entity, not at the city named after it. *)
Theorem gen_location_city_labels_text (g : Rand.rng) :
  exists smp g' location city e_loc e_city,
    Gen.gen_location_city g = Ok (smp, g')
    /\ In location Gen.LOCATIONS /\ In city Gen.CITIES
    /\ Gen.sample_entities smp = [e_loc; e_city]
    /\ Gen.gold_label e_loc = "LOCATION"%string
    /\ Gen.gold_label e_city = "CITY"%string
    /\ gold_slice (Gen.sample_text smp) e_loc = location
    /\ gold_slice (Gen.sample_text smp) e_city = city
    /\ (occurs city location -> Gen.gold_start e_city < Gen.gold_end e_loc).
Proof.
  unfold Gen.gen_location_city.
  destruct (choice_nonempty Gen.LOCATIONS g ltac:(discriminate))
    as (location & Hloc & H1).
  destruct (choice_nonempty Gen.CITIES (Rand.next_pick g) ltac:(discriminate))
    as (city & Hcity & H2).
  rewrite (gen_bind_Ok _ _ _ _ _ H1). cbv beta.
  rewrite (gen_bind_Ok _ _ _ _ _ H2). cbv beta zeta.
  set (g2 := Rand.next_pick (Rand.next_pick g)).
  rewrite gen_bind_unfold. unfold Rand.choice at 1.
  destruct (mod_cases (Rand.picks g2 (Rand.n_picks g2)) 5 ltac:(lia))
    as (r & Hr & Hlt).
  simpl length. rewrite Hr.
  pose proof (cities_nonempty city Hcity) as Hne.
  destruct r as [| [| [| [| [| r]]]]]; [| | | | | lia]; cbn [lookup list_lookup];
    match goal with
    | |- context [Gen.mark ?text location _ []] =>
        destruct (mark_found text location "LOCATION" [])
          as (e1 & Hm1 & Hl1 & Hs1 & Hend1 & He1 & Hsl1 & _);
        [find_occurrence |];
        destruct (mark_found text city "CITY" ([] ++ [e1]))
          as (e2 & Hm2 & Hl2 & Hs2 & _ & He2 & Hsl2 & Hmin2);
        [find_occurrence |];
        rewrite Hm1, Hm2;
        (eexists; exists (Rand.next_pick g2), location, city, e1, e2;
         split; [reflexivity |]; cbn [Gen.sample_text Gen.sample_entities];
         repeat (split; [assumption || reflexivity |]);
         intros (a & b & Hab);
         destruct (Z_lt_le_dec (Gen.gold_start e2) (Gen.gold_end e1))
           as [Hlt' | Hge]; [exact Hlt' | exfalso];
         apply (Hmin2 (Z.to_nat (Gen.gold_start e1) + String.length a)%nat);
         [ rewrite Hab, !length_append in Hend1; lia |];
         unfold gold_slice in Hsl1;
         rewrite <- (substring_shift text (Z.to_nat (Gen.gold_start e1))
                       (Z.to_nat (Gen.gold_end e1 - Gen.gold_start e1))
                       (String.length a) (String.length city));
         [ rewrite Hsl1, Hab, substring_skip; apply substring_prefix
         | rewrite Hend1, Hab, !length_append; lia ])
    end.
Qed.

Example location_city_overlap :
  exists g',
    Gen.gen_location_city
      {| Rand.picks := fun k => match k with 0 => 17 | 1 => 13 | _ => 0 end%nat;
         Rand.rolls := fun _ => 0%Q; Rand.n_picks := 0; Rand.n_rolls := 0 |}
    = Ok ({| Gen.sample_text := "the office is near thane west in thane today";
             Gen.sample_entities :=
               [ {| Gen.gold_start := 19; Gen.gold_end := 29;
                    Gen.gold_label := "LOCATION" |};
                 {| Gen.gold_start := 19; Gen.gold_end := 24;
                    Gen.gold_label := "CITY" |} ] |}, g').
Proof. eexists. vm_compute. reflexivity. Qed.

(** ** Spoken email addresses *)

Lemma replace_char_removes (old : ascii) (new s : string) :
  ~ In old (Str.chars new) ->
  ~ In old (Str.chars (Str.replace_char old new s)).
Proof.
  intros Hnew. induction s as [| c s IH]; [intros [] |].
  simpl. destruct (Ascii.eqb c old) eqn:Hc.
  - rewrite chars_append. intros Hin. apply in_app_or in Hin as [Hin | Hin]; auto.
  - intros [Heq | Hin]; [| auto].
    apply Ascii.eqb_neq in Hc. congruence.
Qed.

Lemma replace_char_keeps_absent (c old : ascii) (new s : string) :
  ~ In c (Str.chars new) -> ~ In c (Str.chars s) ->
  ~ In c (Str.chars (Str.replace_char old new s)).
Proof.
  intros Hnew. induction s as [| d s IH]; [done |].
  intros Hs. simpl. destruct (Ascii.eqb d old).
  - rewrite chars_append. intros Hin. apply in_app_or in Hin as [Hin | Hin].
    + auto.
    + apply IH; [| exact Hin]. intros H. apply Hs. by right.
  - intros [Heq | Hin].
    + apply Hs. by left.
    + apply IH; [| exact Hin]. intros H. apply Hs. by right.
Qed.

Lemma lstrip_chars (c : ascii) (s : string) :
  In c (Str.chars (Str.lstrip s)) -> In c (Str.chars s).
Proof.
  induction s as [| d s IH]; [done |]. simpl.
  destruct (Str.is_space d); [intros H; right; by apply IH | done].
Qed.

Lemma rstrip_chars (c : ascii) (s : string) :
  In c (Str.chars (Str.rstrip s)) -> In c (Str.chars s).
Proof.
  induction s as [| d s IH]; [done |]. simpl.
  destruct (Str.rstrip s) as [| e r] eqn:Hr.
  - destruct (Str.is_space d); [intros [] |].
    intros [<- | []]. by left.
  - intros [<- | Hin]; [by left | right; by apply IH].
Qed.

Lemma strip_chars (c : ascii) (s : string) :
  In c (Str.chars (Str.strip s)) -> In c (Str.chars s).
Proof. intros H. by apply lstrip_chars, rstrip_chars. Qed.

(** X20. [format_email_spoken] never raises.  In the "normal" style
    the address is returned as it is; in the other two, a first draw
    below the double [0.7] leaves no [@] in the result and a second
    draw below the double [0.6] leaves no dot in it. *)
Theorem email_spoken_forms (email : string) (g : Rand.rng) :
  exists out g',
    Gen.format_email_spoken email g = Ok (out, g')
    /\ ((Rand.picks g (Rand.n_picks g) mod 3)%nat = 2%nat -> out = email)
    /\ ((Rand.picks g (Rand.n_picks g) mod 3)%nat <> 2%nat ->
        (Py.lt (Rand.rolls g (Rand.n_rolls g)) Gen.float_0_7 = true ->
         ~ In "@"%char (Str.chars out))
        /\ (Py.lt (Rand.rolls g (S (Rand.n_rolls g))) Gen.float_0_6 = true ->
            ~ In "."%char (Str.chars out))).
Proof.
  unfold Gen.format_email_spoken.
  rewrite gen_bind_unfold. unfold Rand.choice at 1.
  destruct (mod_cases (Rand.picks g (Rand.n_picks g)) 3 ltac:(lia))
    as (r & Hr & Hlt).
  simpl length. rewrite Hr.
  assert (Hspoken : exists out g',
    (r1 ← Rand.random;
     r2 ← Rand.random;
     Rand.ret
       (Str.strip
          (if Py.lt r2 Gen.float_0_6
           then Str.replace_char "." " dot "
                  (if Py.lt r1 Gen.float_0_7 then Str.replace_char "@" " at " email
                   else email)
           else if Py.lt r1 Gen.float_0_7 then Str.replace_char "@" " at " email
                else email))) (Rand.next_pick g) = Ok (out, g')
    /\ (Py.lt (Rand.rolls g (Rand.n_rolls g)) Gen.float_0_7 = true ->
        ~ In "@"%char (Str.chars out))
    /\ (Py.lt (Rand.rolls g (S (Rand.n_rolls g))) Gen.float_0_6 = true ->
        ~ In "."%char (Str.chars out))).
  { eexists. eexists. split; [reflexivity |].
    change (Rand.rolls (Rand.next_pick g) (Rand.n_rolls (Rand.next_pick g)))
      with (Rand.rolls g (Rand.n_rolls g)).
    change (Rand.rolls (Rand.next_roll (Rand.next_pick g))
              (Rand.n_rolls (Rand.next_roll (Rand.next_pick g))))
      with (Rand.rolls g (S (Rand.n_rolls g))).
    assert (Hat_new : ~ In "@"%char (Str.chars " at ")).
    { simpl. intros H. repeat (destruct H as [H | H]; [discriminate H |]). done. }
    assert (Hat_dot : ~ In "@"%char (Str.chars " dot ")).
    { simpl. intros H. repeat (destruct H as [H | H]; [discriminate H |]). done. }
    assert (Hdot_new : ~ In "."%char (Str.chars " dot ")).
    { simpl. intros H. repeat (destruct H as [H | H]; [discriminate H |]). done. }
    split.
    - intros H1 Hin. apply strip_chars in Hin. rewrite H1 in Hin.
      destruct (Py.lt (Rand.rolls g (S (Rand.n_rolls g))) Gen.float_0_6).
      + revert Hin. apply replace_char_keeps_absent; [exact Hat_dot |].
        by apply replace_char_removes.
      + revert Hin. by apply replace_char_removes.
    - intros H2 Hin. apply strip_chars in Hin. rewrite H2 in Hin.
      revert Hin. by apply replace_char_removes. }
  destruct r as [| [| [| r]]]; [| | | lia]; cbn [lookup list_lookup];
    cbn [String.eqb Ascii.eqb Bool.eqb].
  - destruct Hspoken as (out & g' & Hout & H1 & H2).
    exists out, g'. split; [exact Hout |]. split; [discriminate | by intros _].
  - destruct Hspoken as (out & g' & Hout & H1 & H2).
    exists out, g'. split; [exact Hout |]. split; [discriminate | by intros _].
  - exists email. eexists. split; [reflexivity |]. split; [done | intros H; by destruct H].
Qed.

(** ** Spelled digits *)

(** X21. [num_to_words] raises [IndexError] exactly outside -10..9 (a
    negative index counts from the end of the table, as [words[n]]
    does), and on the digits 0..9 different digits get different
    words. *)
Theorem num_to_words_bounds (n : Z) :
  (Gen.num_to_words n = Raise IndexError <-> n < -10 \/ 10 <= n)
  /\ (is_ok (Gen.num_to_words n) = true <-> -10 <= n < 10)
  /\ (forall m w, 0 <= n <= 9 -> 0 <= m <= 9 ->
        Gen.num_to_words n = Ok w -> Gen.num_to_words m = Ok w -> n = m).
Proof.
  unfold Gen.num_to_words.
  set (words := ["zero"; "one"; "two"; "three"; "four"; "five"; "six"; "seven";
                 "eight"; "nine"]%string).
  assert (Hcases : (exists w, Py.getitem words n = Ok w /\ -10 <= n < 10)
                   \/ (Py.getitem words n = Raise IndexError
                       /\ (n < -10 \/ 10 <= n))).
  { destruct (Z_lt_le_dec n (-10)) as [Hlo | Hlo].
    - right. split; [| lia]. apply getitem_out_of_range. simpl. lia.
    - destruct (Z_lt_le_dec n 10) as [Hhi | Hhi].
      + left. destruct (getitem_in_range words n) as [w Hw]; [simpl; lia |].
        exists w. split; [exact Hw | lia].
      + right. split; [| lia]. apply getitem_out_of_range. simpl. lia. }
  split; [| split].
  - destruct Hcases as [(w & -> & Hin) | [-> Hout]];
      split; [discriminate | lia | done | done].
  - destruct Hcases as [(w & -> & Hin) | [-> Hout]]; cbn [is_ok];
      split; [done | done | discriminate | lia].
  - intros m w Hn Hm.
    assert (Hn' : n = Z.of_nat (Z.to_nat n)) by lia.
    assert (Hm' : m = Z.of_nat (Z.to_nat m)) by lia.
    assert (Hnle : (Z.to_nat n <= 9)%nat) by lia.
    assert (Hmle : (Z.to_nat m <= 9)%nat) by lia.
    revert Hn' Hm' Hnle Hmle.
    generalize (Z.to_nat n) (Z.to_nat m). intros a b -> -> Ha Hb. clear Hn Hm Hcases.
    do 10 (destruct a as [| a];
           [ do 10 (destruct b as [| b];
                    [intros H1 H2; first [reflexivity | rewrite H1 in H2; discriminate H2
                                          | vm_compute in H1, H2; congruence] |]);
             lia |]).
    lia.
Qed.

(** A draw equal to the double [0.7] is not below it: the address keeps
    its [@] (and, the second draw being above [0.6], its dot). *)
Example email_spoken_boundary_draw :
  Gen.format_email_spoken "a@b.c" (sample_rng 0 1 Gen.float_0_7)
  = Ok ("a@b.c"%string,
        Rand.next_roll (Rand.next_roll (Rand.next_pick
                                          (sample_rng 0 1 Gen.float_0_7)))).
Proof. reflexivity. Qed.
